(** * yimi-go/bootstrap: the lifecycle orchestrator and its configuration builder

    A shallow embedding of [bootstrap.go] and [options.go].

    - Go's [error] interface value is [err := option error]; [None] is nil.
    - The configuration functions of [options.go] are functions on the
      [bootstrap] record, [New] folds them over the default record.
    - [bootstrap.Run] starts goroutines through an [errgroup.Group] and
      synchronises with a [sync.WaitGroup].  It is embedded as a transition
      system: every goroutine has a program counter, a schedule (a list of
      [action]s) picks which goroutine moves next and carries the results of
      the calls into code that is not part of the package (the hooks, the
      runners, the shutdown controller).  Every statement appends its
      observable [event]s to the [trace] of the state. *)

From Stdlib Require Import ZArith Lia.
From stdpp Require Import base tactics option list sets strings.


(** ** Errors: [context.Canceled], [github.com/pkg/errors] *)

(** An error value.  [WithMessage] is the [*withMessage] of pkg/errors: a
    message in front of a cause, with [Unwrap] returning the cause. *)
Inductive error : Type :=
| Canceled                                   (* the sentinel context.Canceled *)
| Opaque (msg : string)                      (* any other error without a cause *)
| WithMessage (cause : error) (msg : string).

Definition err : Type := option error.

#[global] Instance error_eq_dec : EqDecision error.
Proof. solve_decision. Defined.

Module errors.

(** [errors.WithMessagef(err, format, args...)]: nil stays nil. *)
Definition WithMessagef (e : err) (msg : string) : err :=
  match e with
  | None => None
  | Some c => Some (WithMessage c msg)
  end.

(** [errors.Is(err, target)] for a non-nil [err]: walk the [Unwrap] chain
    and compare each link with the target.  Go compares interface values;
    for the sentinel [Canceled], the only target [Run] uses, that is the
    comparison below. *)
Fixpoint Is (e target : error) : bool :=
  if bool_decide (e = target) then true
  else match e with
       | WithMessage c _ => Is c target
       | _ => false
       end.


(** [errors.Unwrap(err)]: the cause under a message, nil for an error
    without one. *)
Definition Unwrap (e : err) : err :=
  match e with
  | Some (WithMessage c _) => Some c
  | _ => None
  end.

(** The chain of messages added by [WithMessagef], outermost first. *)
Fixpoint messages (e : error) : list string :=
  match e with
  | WithMessage c m => m :: messages c
  | _ => []
  end.

(** The innermost error of the chain. *)
Fixpoint root (e : error) : error :=
  match e with
  | WithMessage c _ => root c
  | _ => e
  end.

End errors.


(** ** The data model of [bootstrap.go] *)

(** A [func(ctx context.Context) error] value supplied by the caller. *)
Record HookFunc : Type := Hook { hook_label : string }.

(** A [runner.Runner]: [Name()] is its field, [Run] and [Stop] belong to the
    implementation and their results come with the schedule. *)
Record Runner : Type := mkRunner { Name : string }.

(** The options [New] passes to [shutdown.NewGraceful]. *)
Inductive ErrorHandler : Type :=
| LogError (msg : string).        (* slog.Ctx(ctx).Error(msg, err) *)

Inductive Trigger : Type :=
| PosixSignal.                    (* posixsignal.NewTrigger() *)

Inductive GracefulOption : Type :=
| WithTimeout (d : Z)             (* a time.Duration, in nanoseconds *)
| WithErrorHandler (h : ErrorHandler)
| WithTrigger (t : Trigger).

(** A [shutdown.Controller]: the graceful controller of the shutdown
    package, or any other implementation of the interface. *)
Inductive Controller : Type :=
| NewGraceful (opts : list GracefulOption)
| Custom (label : string).

Definition Second : Z := 1000000000.

(** The options a controller was built with. *)
Definition controller_options (c : Controller) : list GracefulOption :=
  match c with
  | NewGraceful opts => opts
  | Custom _ => []
  end.

Record bootstrap : Type := mkBootstrap {
  beforeRun : option HookFunc;
  onRun : option HookFunc;
  runners : list Runner;
  gs : option Controller
}.

(** ** [options.go] *)

Definition Option : Type := bootstrap -> bootstrap.

Definition WithShutdown (g : option Controller) : Option :=
  fun b =>
    match g with
    | None => b
    | Some _ => mkBootstrap (beforeRun b) (onRun b) (runners b) g
    end.

Definition WithBeforeRun (before : option HookFunc) : Option :=
  fun b => mkBootstrap before (onRun b) (runners b) (gs b).

Definition WithOnRun (fn : option HookFunc) : Option :=
  fun b => mkBootstrap (beforeRun b) fn (runners b) (gs b).

Definition WithRunners (rs : list Runner) : Option :=
  fun b => mkBootstrap (beforeRun b) (onRun b) (runners b ++ rs) (gs b).

(** The four constructors of [Option] values that [options.go] exports. *)
Inductive configuration : Option -> Prop :=
| cfg_shutdown g : configuration (WithShutdown g)
| cfg_before f : configuration (WithBeforeRun f)
| cfg_onrun f : configuration (WithOnRun f)
| cfg_runners rs : configuration (WithRunners rs).

(** ** [New] *)

Definition defaultController : Controller :=
  NewGraceful [ WithTimeout Second;
                WithErrorHandler (LogError "error when shutting down");
                WithTrigger PosixSignal ].

(** The struct literal of [New]: only [gs] is set. *)
Definition zero : bootstrap :=
  mkBootstrap None None [] (Some defaultController).

Definition New (opts : list Option) : bootstrap :=
  fold_left (fun b opt => opt b) opts zero.


(** [Run]'s last statement: a non-nil error of the group that is not a
    cancellation gets the message ["bootstrap run err"], anything else is
    nil. *)
Definition finish (e : err) : err :=
  match e with
  | Some x =>
      if errors.Is x Canceled then None
      else errors.WithMessagef (Some x) "bootstrap run err"
  | None => None
  end.

(** ** [Run] as a transition system *)

(** [slog]: the levels, and what [Run] asks of the logger of the context. *)
Inductive Level : Type := DebugLevel | InfoLevel | WarnLevel | ErrorLevel.

Record Logger : Type := mkLogger { Enabled : Level -> bool }.

(** The goroutines: the caller of [Run], the task of [gs.Wait], one start
    task per runner (by index in [b.runners]), the post-start task, and the
    invocations of shutdown callbacks by the controller (numbered in the
    order of invocation). *)
Inductive gid : Type :=
| GMain
| GWait
| GStart (i : nat)
| GOnRun
| GCallback (k : nat).

(** The calls that leave the package. *)
Inductive call : Type :=
| CBeforeRun          (* before(ctx) *)
| CWait               (* b.gs.Wait(egCtx) *)
| CRun (i : nat)      (* r.Run(egCtx) of runner i *)
| COnRun              (* fn(egCtx) *)
| CStop (i : nat).    (* r.Stop(ctx) of runner i *)

Inductive event : Type :=
| EvLog (lvl : Level) (msg : string)   (* a record handed to the logger *)
| EvCall (g : gid) (c : call)          (* g enters the call *)
| EvRet (g : gid) (c : call) (r : err) (* the call returns r to g *)
| EvRegister (i : nat)                 (* b.gs.AddShutdownCallback for runner i *)
| EvSpawn (g : gid)                    (* eg.Go starts task g *)
| EvSignal (i : nat)                   (* waitStart.Done() of start task i *)
| EvBarrier                            (* waitStart.Wait() returned *)
| EvExit (g : gid) (res : err)         (* the function of g returned res *)
| EvInvoke (k i : nat) (reason : string) (* the controller invokes the callback of runner i *)
| EvCancel                             (* the caller cancels the input context *)
| EvReturn (res : err).                (* Run returned res *)

#[global] Instance Level_eq_dec : EqDecision Level.
Proof. solve_decision. Defined.
#[global] Instance gid_eq_dec : EqDecision gid.
Proof. solve_decision. Defined.
#[global] Instance call_eq_dec : EqDecision call.
Proof. solve_decision. Defined.
#[global] Instance event_eq_dec : EqDecision event.
Proof. solve_decision. Defined.

(** Program points of [Run] itself (line numbers of bootstrap.go). *)
Inductive main_pc : Type :=
| MEntry              (* 30-34: the test of len(b.runners) *)
| MBefore             (* 35-36: the test of b.beforeRun *)
| MInBefore           (* 37: inside before(ctx) *)
| MWithContext        (* 41-44: errgroup.WithContext, eg.Go(gs.Wait) *)
| MLoop (i : nat)     (* 46-60: loop head, AddShutdownCallback for runner i *)
| MAdd (i : nat)      (* 61: waitStart.Add(1) *)
| MGo (i : nat)       (* 62: eg.Go of the start task of runner i *)
| MBarrier            (* 74: waitStart.Wait() *)
| MStarted            (* 75-77: the log line *)
| MGoOnRun            (* 78: eg.Go of the post-start task *)
| MEgWait             (* 88-92: eg.Wait() and the result *)
| MReturned (res : err).

(** Program points of a task or of a callback invocation. *)
Inductive task_pc : Type :=
| TLog                (* the info line *)
| TSignal             (* waitStart.Done() (start tasks only) *)
| TCall               (* about to enter the call *)
| TBlocked            (* inside the call *)
| TAfter (r : err)    (* the call returned r *)
| TDone (res : err).  (* the function returned res *)

Record state : Type := mkState {
  pc : main_pc;
  wait_task : option task_pc;          (* None: not spawned *)
  start_tasks : list task_pc;          (* entry i: start task of runner i *)
  onrun_task : option task_pc;
  invocations : list (nat * string * task_pc); (* runner, reason, program point *)
  callbacks : list nat;                (* registered with b.gs, by runner *)
  eg_err : err;                        (* errgroup: g.err, set once *)
  eg_cancelled : bool;                 (* errgroup: g.cancel was called *)
  eg_wg : nat;                         (* errgroup: g.wg *)
  waitStart : nat;                     (* the sync.WaitGroup of line 45 *)
  ctx_done : bool;                     (* the input context is cancelled *)
  crashed : bool;                      (* a nil-interface call panicked *)
  trace : list event
}.

Definition set_pc (v : main_pc) (s : state) : state :=
  mkState v (wait_task s) (start_tasks s) (onrun_task s) (invocations s) (callbacks s) (eg_err s) (eg_cancelled s) (eg_wg s) (waitStart s) (ctx_done s) (crashed s) (trace s).

Definition set_wait_task (v : option task_pc) (s : state) : state :=
  mkState (pc s) v (start_tasks s) (onrun_task s) (invocations s) (callbacks s) (eg_err s) (eg_cancelled s) (eg_wg s) (waitStart s) (ctx_done s) (crashed s) (trace s).

Definition set_start_tasks (v : list task_pc) (s : state) : state :=
  mkState (pc s) (wait_task s) v (onrun_task s) (invocations s) (callbacks s) (eg_err s) (eg_cancelled s) (eg_wg s) (waitStart s) (ctx_done s) (crashed s) (trace s).

Definition set_onrun_task (v : option task_pc) (s : state) : state :=
  mkState (pc s) (wait_task s) (start_tasks s) v (invocations s) (callbacks s) (eg_err s) (eg_cancelled s) (eg_wg s) (waitStart s) (ctx_done s) (crashed s) (trace s).

Definition set_invocations (v : list (nat * string * task_pc)) (s : state) : state :=
  mkState (pc s) (wait_task s) (start_tasks s) (onrun_task s) v (callbacks s) (eg_err s) (eg_cancelled s) (eg_wg s) (waitStart s) (ctx_done s) (crashed s) (trace s).

Definition set_callbacks (v : list nat) (s : state) : state :=
  mkState (pc s) (wait_task s) (start_tasks s) (onrun_task s) (invocations s) v (eg_err s) (eg_cancelled s) (eg_wg s) (waitStart s) (ctx_done s) (crashed s) (trace s).

Definition set_eg_err (v : err) (s : state) : state :=
  mkState (pc s) (wait_task s) (start_tasks s) (onrun_task s) (invocations s) (callbacks s) v (eg_cancelled s) (eg_wg s) (waitStart s) (ctx_done s) (crashed s) (trace s).

Definition set_eg_cancelled (v : bool) (s : state) : state :=
  mkState (pc s) (wait_task s) (start_tasks s) (onrun_task s) (invocations s) (callbacks s) (eg_err s) v (eg_wg s) (waitStart s) (ctx_done s) (crashed s) (trace s).

Definition set_eg_wg (v : nat) (s : state) : state :=
  mkState (pc s) (wait_task s) (start_tasks s) (onrun_task s) (invocations s) (callbacks s) (eg_err s) (eg_cancelled s) v (waitStart s) (ctx_done s) (crashed s) (trace s).

Definition set_waitStart (v : nat) (s : state) : state :=
  mkState (pc s) (wait_task s) (start_tasks s) (onrun_task s) (invocations s) (callbacks s) (eg_err s) (eg_cancelled s) (eg_wg s) v (ctx_done s) (crashed s) (trace s).

Definition set_ctx_done (v : bool) (s : state) : state :=
  mkState (pc s) (wait_task s) (start_tasks s) (onrun_task s) (invocations s) (callbacks s) (eg_err s) (eg_cancelled s) (eg_wg s) (waitStart s) v (crashed s) (trace s).

Definition set_crashed (v : bool) (s : state) : state :=
  mkState (pc s) (wait_task s) (start_tasks s) (onrun_task s) (invocations s) (callbacks s) (eg_err s) (eg_cancelled s) (eg_wg s) (waitStart s) (ctx_done s) v (trace s).

Definition set_trace (v : list event) (s : state) : state :=
  mkState (pc s) (wait_task s) (start_tasks s) (onrun_task s) (invocations s) (callbacks s) (eg_err s) (eg_cancelled s) (eg_wg s) (waitStart s) (ctx_done s) (crashed s) v.

Definition emit (evs : list event) (s : state) : state :=
  set_trace (trace s ++ evs) s.

Definition set_start (i : nat) (p : task_pc) (s : state) : state :=
  set_start_tasks (<[i := p]> (start_tasks s)) s.

Definition set_invocation (k : nat) (v : nat * string * task_pc) (s : state) : state :=
  set_invocations (<[k := v]> (invocations s)) s.

(** The derived context [egCtx] is done when its parent is, or when the
    group cancelled it. *)
Definition egCtx_done (s : state) : bool := ctx_done s || eg_cancelled s.

(** [errgroup.Group.Go]: [g.wg.Add(1)], then the goroutine. *)
Definition eg_Go (s : state) : state := set_eg_wg (S (eg_wg s)) s.

(** The goroutine of [Group.Go] once [f] returned [res]: the first non-nil
    result is kept and cancels the context ([errOnce]), then [g.wg.Done()]. *)
Definition eg_done (res : err) (s : state) : state :=
  let s1 := match res, eg_err s with
            | Some e, None => set_eg_cancelled true (set_eg_err (Some e) s)
            | _, _ => s
            end in
  set_eg_wg (pred (eg_wg s1)) s1.

Definition initial : state :=
  mkState MEntry None [] None [] [] None false 0 0 false false [].

(** What the schedule chooses at each step. *)
Inductive action : Type :=
| ACancel                               (* the caller cancels the input context *)
| AStep (g : gid)                       (* g executes its next statement *)
| AReturn (g : gid) (r : err)           (* the call g is inside returns r *)
| AInvoke (i : nat) (reason : string).  (* the controller invokes the callback of runner i *)

(** [logger.Log(lvl, msg)]: the record is written when the logger is
    enabled for the level, and dropped otherwise. *)
Definition Log (logger : Logger) (lvl : Level) (msg : string) : list event :=
  if Enabled logger lvl then [EvLog lvl msg] else [].

Section Machine.

Variable b : bootstrap.
Variable logger : Logger.

(** [if logger.Enabled(slog.InfoLevel) { logger.Info(msg) }] *)
Definition log_info (msg : string) (s : state) : state :=
  if Enabled logger InfoLevel then emit [EvLog InfoLevel msg] s else s.

Definition step_main (s : state) : state :=
  match pc s with
  | MEntry =>
      match runners b with
      | [] => emit (Log logger ErrorLevel "no runners, abort." ++ [EvReturn None])
                (set_pc (MReturned None) s)
      | _ :: _ => set_pc MBefore s
      end
  | MBefore =>
      match beforeRun b with
      | Some _ => emit [EvCall GMain CBeforeRun] (set_pc MInBefore s)
      | None => set_pc MWithContext s
      end
  | MInBefore => s
  | MWithContext =>
      emit [EvSpawn GWait] (set_pc (MLoop 0) (set_wait_task (Some TCall) (eg_Go s)))
  | MLoop i =>
      match runners b !! i with
      | None => set_pc MBarrier s
      | Some _ =>
          match gs b with
          | None => set_crashed true s
          | Some _ =>
              emit [EvRegister i]
                (set_pc (MAdd i) (set_callbacks (callbacks s ++ [i]) s))
          end
      end
  | MAdd i => set_pc (MGo i) (set_waitStart (S (waitStart s)) s)
  | MGo i =>
      emit [EvSpawn (GStart i)]
        (set_pc (MLoop (S i)) (set_start_tasks (start_tasks s ++ [TLog]) (eg_Go s)))
  | MBarrier =>
      if Nat.eqb (waitStart s) 0 then emit [EvBarrier] (set_pc MStarted s) else s
  | MStarted => log_info "bootstrap started." (set_pc MGoOnRun s)
  | MGoOnRun =>
      emit [EvSpawn GOnRun] (set_pc MEgWait (set_onrun_task (Some TCall) (eg_Go s)))
  | MEgWait =>
      if Nat.eqb (eg_wg s) 0 then
        let res := finish (eg_err s) in
        emit [EvReturn res] (set_pc (MReturned res) (set_eg_cancelled true s))
      else s
  | MReturned _ => s
  end.

Definition return_main (r : err) (s : state) : state :=
  match pc s with
  | MInBefore =>
      match r with
      | Some _ => emit [EvRet GMain CBeforeRun r; EvReturn r] (set_pc (MReturned r) s)
      | None => emit [EvRet GMain CBeforeRun r] (set_pc MWithContext s)
      end
  | _ => s
  end.

Definition step_wait (s : state) : state :=
  match wait_task s with
  | Some TCall =>
      match gs b with
      | None => set_crashed true s
      | Some _ => emit [EvCall GWait CWait] (set_wait_task (Some TBlocked) s)
      end
  | Some (TAfter r) =>
      emit [EvExit GWait r] (eg_done r (set_wait_task (Some (TDone r)) s))
  | _ => s
  end.

Definition return_wait (r : err) (s : state) : state :=
  match wait_task s with
  | Some TBlocked => emit [EvRet GWait CWait r] (set_wait_task (Some (TAfter r)) s)
  | _ => s
  end.

Definition step_start (i : nat) (s : state) : state :=
  match start_tasks s !! i, runners b !! i with
  | Some p, Some rn =>
      match p with
      | TLog => log_info ("Starting runner: " +:+ Name rn) (set_start i TSignal s)
      | TSignal =>
          emit [EvSignal i] (set_start i TCall (set_waitStart (pred (waitStart s)) s))
      | TCall => emit [EvCall (GStart i) (CRun i)] (set_start i TBlocked s)
      | TAfter r =>
          let res := errors.WithMessagef r ("starting " +:+ Name rn +:+ " failed") in
          emit [EvExit (GStart i) res] (eg_done res (set_start i (TDone res) s))
      | _ => s
      end
  | _, _ => s
  end.

Definition return_start (i : nat) (r : err) (s : state) : state :=
  match start_tasks s !! i with
  | Some TBlocked => emit [EvRet (GStart i) (CRun i) r] (set_start i (TAfter r) s)
  | _ => s
  end.

Definition step_onrun (s : state) : state :=
  match onrun_task s with
  | Some TCall =>
      match onRun b with
      | Some _ => emit [EvCall GOnRun COnRun] (set_onrun_task (Some TBlocked) s)
      | None => emit [EvExit GOnRun None] (eg_done None (set_onrun_task (Some (TDone None)) s))
      end
  | Some (TAfter r) =>
      let res := errors.WithMessagef r "onRun err" in
      emit [EvExit GOnRun res] (eg_done res (set_onrun_task (Some (TDone res)) s))
  | _ => s
  end.

Definition return_onrun (r : err) (s : state) : state :=
  match onrun_task s with
  | Some TBlocked => emit [EvRet GOnRun COnRun r] (set_onrun_task (Some (TAfter r)) s)
  | _ => s
  end.

(** The controller invokes a callback it was given. *)
Definition invoke (i : nat) (reason : string) (s : state) : state :=
  if bool_decide (i ∈ callbacks s) then
    emit [EvInvoke (length (invocations s)) i reason]
      (set_invocations (invocations s ++ [(i, reason, TLog)]) s)
  else s.

(** The callback of lines 48-60. *)
Definition step_callback (k : nat) (s : state) : state :=
  match invocations s !! k with
  | Some (i, reason, p) =>
      match runners b !! i with
      | Some rn =>
          match p with
          | TLog =>
              log_info ("Stopping runner: " +:+ Name rn +:+ ", cause: " +:+ reason)
                (set_invocation k (i, reason, TCall) s)
          | TCall =>
              emit [EvCall (GCallback k) (CStop i)]
                (set_invocation k (i, reason, TBlocked) s)
          | TAfter (Some e) =>
              let res := errors.WithMessagef (Some e) ("stopping " +:+ Name rn +:+ " failed") in
              emit [EvExit (GCallback k) res] (set_invocation k (i, reason, TDone res) s)
          | TAfter None =>
              emit [EvExit (GCallback k) None]
                (log_info ("Runner stoped: " +:+ Name rn)
                   (set_invocation k (i, reason, TDone None) s))
          | _ => s
          end
      | None => s
      end
  | None => s
  end.

Definition return_callback (k : nat) (r : err) (s : state) : state :=
  match invocations s !! k with
  | Some (i, reason, TBlocked) =>
      emit [EvRet (GCallback k) (CStop i) r] (set_invocation k (i, reason, TAfter r) s)
  | _ => s
  end.

(** One step of the schedule.  An action that is not enabled (a blocked
    goroutine, a call that is not pending, a callback that was never
    registered) leaves the state as it is; after a panic nothing moves. *)
Definition step (a : action) (s : state) : state :=
  if crashed s then s
  else match a with
       | ACancel => emit [EvCancel] (set_ctx_done true s)
       | AStep GMain => step_main s
       | AStep GWait => step_wait s
       | AStep (GStart i) => step_start i s
       | AStep GOnRun => step_onrun s
       | AStep (GCallback k) => step_callback k s
       | AReturn GMain r => return_main r s
       | AReturn GWait r => return_wait r s
       | AReturn (GStart i) r => return_start i r s
       | AReturn GOnRun r => return_onrun r s
       | AReturn (GCallback k) r => return_callback k r s
       | AInvoke i reason => invoke i reason s
       end.

(** [Run] under a schedule. *)
Definition Run (sched : list action) : state :=
  fold_left (fun s a => step a s) sched initial.

End Machine.

(** The value [Run] returned, if it has. *)
Definition result (s : state) : option err :=
  match pc s with
  | MReturned res => Some res
  | _ => None
  end.

(** The log records of a trace, oldest first. *)
Fixpoint logs (t : list event) : list (Level * string) :=
  match t with
  | [] => []
  | EvLog lvl msg :: t' => (lvl, msg) :: logs t'
  | _ :: t' => logs t'
  end.

(** The tasks of the errgroup. *)
Definition in_group (g : gid) : bool :=
  match g with
  | GWait | GStart _ | GOnRun => true
  | _ => false
  end.

(** The first non-nil result a task of the group returned. *)
Fixpoint first_error (t : list event) : err :=
  match t with
  | [] => None
  | EvExit g (Some e) :: t' => if in_group g then Some e else first_error t'
  | _ :: t' => first_error t'
  end.

(** [e1] is in the trace before every occurrence of [e2]. *)
Definition precedes (e1 e2 : event) (t : list event) : Prop :=
  forall t1 t2, t = t1 ++ e2 :: t2 -> e1 ∈ t1.


(** ** Invariants of the transition system *)

Fixpoint count {A : Type} (f : A -> bool) (l : list A) : nat :=
  match l with
  | [] => 0
  | x :: l' => (if f x then 1 else 0) + count f l'
  end.

(** How often an event occurs in a trace. *)
Definition occurrences (e : event) (t : list event) : nat :=
  count (fun x => bool_decide (x = e)) t.

(** A start task that has not yet called [waitStart.Done()]. *)
Definition unsignalled (p : task_pc) : bool :=
  match p with
  | TLog | TSignal => true
  | _ => false
  end.

(** A task whose function has not returned. *)
Definition live (p : task_pc) : bool :=
  match p with
  | TDone _ => false
  | _ => true
  end.

(** A task that has entered its call. *)
Definition called (p : task_pc) : bool :=
  match p with
  | TBlocked | TAfter _ | TDone _ => true
  | _ => false
  end.

Definition live_opt (o : option task_pc) : nat :=
  match o with
  | Some p => if live p then 1 else 0
  | None => 0
  end.

(** Nothing was spawned or registered: [Run] is before line 41, or returned
    from there. *)
Definition pristine (s : state) : Prop :=
  wait_task s = None /\ start_tasks s = [] /\ onrun_task s = None /\
  callbacks s = [] /\ invocations s = [] /\ eg_err s = None /\
  eg_cancelled s = false /\ eg_wg s = 0 /\ waitStart s = 0.

(** The loop of lines 46-73 is over: every runner has its callback and its
    start task. *)
Definition looped (n : nat) (s : state) : Prop :=
  is_Some (wait_task s) /\ length (start_tasks s) = n /\ callbacks s = seq 0 n.

(** What the program point of [Run] says about the rest of the state. *)
Definition shape (b : bootstrap) (s : state) : Prop :=
  let n := length (runners b) in
  match pc s with
  | MEntry | MBefore | MInBefore | MWithContext => pristine s
  | MLoop i =>
      is_Some (wait_task s) /\ length (start_tasks s) = i /\
      callbacks s = seq 0 i /\ onrun_task s = None /\ i <= n
  | MAdd i | MGo i =>
      is_Some (wait_task s) /\ length (start_tasks s) = i /\
      callbacks s = seq 0 (S i) /\ onrun_task s = None /\ i < n
  | MBarrier => looped n s /\ onrun_task s = None
  | MStarted | MGoOnRun => looped n s /\ onrun_task s = None /\ waitStart s = 0
  | MEgWait => looped n s /\ is_Some (onrun_task s) /\ waitStart s = 0
  | MReturned res =>
      pristine s \/
      (looped n s /\ is_Some (onrun_task s) /\ waitStart s = 0 /\
       eg_wg s = 0 /\ res = finish (eg_err s))
  end.

(** The two wait groups count what they are meant to count. *)
Definition counters (s : state) : Prop :=
  waitStart s =
    count unsignalled (start_tasks s) + (match pc s with MGo _ => 1 | _ => 0 end) /\
  eg_wg s =
    live_opt (wait_task s) + count live (start_tasks s) + live_opt (onrun_task s).

Record Inv (b : bootstrap) (s : state) : Prop := mkInv {
  inv_shape : shape b s;
  inv_counters : counters s;
  inv_invocations : Forall (fun v => v.1.1 ∈ callbacks s) (invocations s);
  inv_crashed : crashed s = true -> gs b = None
}.

(** ** The history of each goroutine

    Every event but a log record and the cancellation of the input context
    belongs to one goroutine; the events of a goroutine in the trace are
    determined by its program point. *)

Definition owner (e : event) : option gid :=
  match e with
  | EvLog _ _ | EvCancel => None
  | EvCall g _ | EvRet g _ _ | EvExit g _ => Some g
  | EvRegister _ | EvSpawn _ | EvBarrier | EvReturn _ => Some GMain
  | EvSignal i => Some (GStart i)
  | EvInvoke k _ _ => Some (GCallback k)
  end.

Definition gid_eqb (g1 g2 : gid) : bool :=
  match g1, g2 with
  | GMain, GMain | GWait, GWait | GOnRun, GOnRun => true
  | GStart i, GStart j => Nat.eqb i j
  | GCallback i, GCallback j => Nat.eqb i j
  | _, _ => false
  end.

Definition owned (g : gid) (e : event) : bool :=
  match owner e with
  | Some g' => gid_eqb g g'
  | None => false
  end.

(** The events of goroutine [g] in a trace, in order. *)
Definition proj (g : gid) (t : list event) : list event := List.filter (owned g) t.

Definition hook_part (b : bootstrap) : list event :=
  match beforeRun b with
  | Some _ => [EvCall GMain CBeforeRun; EvRet GMain CBeforeRun None]
  | None => []
  end.

(** The loop of lines 46-73 after [i] rounds. *)
Fixpoint loop_part (i : nat) : list event :=
  match i with
  | 0 => []
  | S j => loop_part j ++ [EvRegister j; EvSpawn (GStart j)]
  end.

Definition upto_loop (b : bootstrap) (i : nat) : list event :=
  hook_part b ++ [EvSpawn GWait] ++ loop_part i.

Definition main_history (b : bootstrap) (s : state) : list event :=
  let n := length (runners b) in
  match pc s with
  | MEntry | MBefore => []
  | MInBefore => [EvCall GMain CBeforeRun]
  | MWithContext => hook_part b
  | MLoop i => upto_loop b i
  | MAdd i | MGo i => upto_loop b i ++ [EvRegister i]
  | MBarrier => upto_loop b n
  | MStarted | MGoOnRun => upto_loop b n ++ [EvBarrier]
  | MEgWait => upto_loop b n ++ [EvBarrier; EvSpawn GOnRun]
  | MReturned res =>
      match wait_task s with
      | None =>
          match res with
          | None => [EvReturn None]
          | Some _ => [EvCall GMain CBeforeRun; EvRet GMain CBeforeRun res; EvReturn res]
          end
      | Some _ => upto_loop b n ++ [EvBarrier; EvSpawn GOnRun; EvReturn res]
      end
  end.

(** The events of a goroutine that makes call [c] and is at program point
    [p]; [r] is what the call returned when [p] is [TDone]. *)
Definition call_history (g : gid) (c : call) (p : task_pc) (r : err) : list event :=
  match p with
  | TLog | TSignal | TCall => []
  | TBlocked => [EvCall g c]
  | TAfter r' => [EvCall g c; EvRet g c r']
  | TDone res => [EvCall g c; EvRet g c r; EvExit g res]
  end.

Definition wait_history (p : task_pc) : list event :=
  call_history GWait CWait p (match p with TDone res => res | _ => None end).

Definition start_history (i : nat) (p : task_pc) : list event :=
  match p with
  | TLog | TSignal => []
  | _ => EvSignal i ::
         call_history (GStart i) (CRun i) p
           (match p with TDone res => errors.Unwrap res | _ => None end)
  end.

Definition onrun_history (b : bootstrap) (p : task_pc) : list event :=
  match p with
  | TDone res =>
      match onRun b with
      | Some _ => call_history GOnRun COnRun p (errors.Unwrap res)
      | None => [EvExit GOnRun res]
      end
  | _ => call_history GOnRun COnRun p None
  end.

Definition callback_history (k : nat) (v : nat * string * task_pc) : list event :=
  EvInvoke k v.1.1 v.1.2 ::
  call_history (GCallback k) (CStop v.1.1) v.2
    (match v.2 with TDone res => errors.Unwrap res | _ => None end).

Definition history_of {A : Type} (h : A -> list event) (o : option A) : list event :=
  match o with
  | Some p => h p
  | None => []
  end.

(** A finished task returned the result of its call with the message of
    its kind in front. *)
Definition wrapped (msg : string) (p : task_pc) : Prop :=
  match p with
  | TDone res => res = errors.WithMessagef (errors.Unwrap res) msg
  | _ => True
  end.

Definition starting (rn : Runner) : string := "starting " +:+ Name rn +:+ " failed".
Definition stopping (rn : Runner) : string := "stopping " +:+ Name rn +:+ " failed".

(** The post-start task: without a hook it makes no call and returns nil. *)
Definition onrun_wrapped (b : bootstrap) (p : task_pc) : Prop :=
  match p with
  | TDone res =>
      match onRun b with
      | Some _ => wrapped "onRun err" p
      | None => res = None
      end
  | TBlocked | TAfter _ => is_Some (onRun b)
  | _ => True
  end.

Record Hist (b : bootstrap) (s : state) : Prop := mkHist {
  h_main : proj GMain (trace s) = main_history b s;
  h_wait : proj GWait (trace s) = history_of wait_history (wait_task s);
  h_start : forall i,
    proj (GStart i) (trace s) = history_of (start_history i) (start_tasks s !! i);
  h_onrun : proj GOnRun (trace s) = history_of (onrun_history b) (onrun_task s);
  h_callback : forall k,
    proj (GCallback k) (trace s) = history_of (callback_history k) (invocations s !! k);
  h_err : eg_err s = first_error (trace s);
  h_starting : forall i p rn,
    start_tasks s !! i = Some p -> runners b !! i = Some rn -> wrapped (starting rn) p;
  h_onrun_err : forall p, onrun_task s = Some p -> onrun_wrapped b p;
  h_stopping : forall k i reason p rn,
    invocations s !! k = Some (i, reason, p) -> runners b !! i = Some rn ->
    wrapped (stopping rn) p;
  h_empty : pc s = MReturned None -> wait_task s = None -> runners b = [];
  h_nonempty : pc s <> MEntry -> (pc s = MReturned None -> is_Some (wait_task s)) ->
    runners b <> [];
  h_failed : forall e, pc s = MReturned (Some e) -> wait_task s = None ->
    is_Some (beforeRun b);
  h_inbefore : pc s = MInBefore -> is_Some (beforeRun b)
}.

(** What [Run] itself did: the trace without the cancellations of the input
    context, which are the caller's. *)
Definition effects (t : list event) : list event :=
  List.filter (fun e => negb (bool_decide (e = EvCancel))) t.

Definition is_main_step (a : action) : bool :=
  match a with
  | AStep GMain => true
  | _ => false
  end.

(** What a run without runners looks like after a schedule. *)
Definition empty_run (logger : Logger) (sched : list action) (s : state) : Prop :=
  pristine s /\ crashed s = false /\
  if existsb is_main_step sched
  then pc s = MReturned None /\
       effects (trace s) = Log logger ErrorLevel "no runners, abort." ++ [EvReturn None]
  else pc s = MEntry /\ effects (trace s) = [].


(** The state in which a statement appends the event: where [Run] is when it
    spawns a task, where a task is when it enters its call. *)
Definition emitted_at (s : state) (e : event) : Prop :=
  match e with
  | EvSpawn GWait => pc s = MWithContext
  | EvSpawn (GStart i) => pc s = MGo i
  | EvSpawn GOnRun => pc s = MGoOnRun
  | EvSpawn _ => False
  | EvCall GMain _ => pc s = MBefore
  | EvCall GWait _ => wait_task s = Some TCall
  | EvCall (GStart i) _ => start_tasks s !! i = Some TCall
  | EvCall GOnRun _ => onrun_task s = Some TCall
  | EvRegister i => pc s = MLoop i
  | EvBarrier => pc s = MBarrier
  | _ => True
  end.

(** ** Termination measure

    How many steps [Run] and its tasks still have to take: every enabled
    step of [Run] or of a task lowers it. *)

Definition main_weight (n : nat) (p : main_pc) : nat :=
  match p with
  | MEntry => 3 * n + 9
  | MBefore => 3 * n + 8
  | MInBefore => 3 * n + 7
  | MWithContext => 3 * n + 6
  | MLoop i => 3 * (n - i) + 5
  | MAdd i => 3 * (n - i) + 4
  | MGo i => 3 * (n - i) + 3
  | MBarrier => 4
  | MStarted => 3
  | MGoOnRun => 2
  | MEgWait => 1
  | MReturned _ => 0
  end.

Definition task_weight (p : task_pc) : nat :=
  match p with
  | TLog => 5
  | TSignal => 4
  | TCall => 3
  | TBlocked => 2
  | TAfter _ => 1
  | TDone _ => 0
  end.

Definition opt_weight (o : option task_pc) : nat :=
  match o with
  | Some p => task_weight p
  | None => 0
  end.

Fixpoint weight_sum (l : list task_pc) : nat :=
  match l with
  | [] => 0
  | p :: l' => task_weight p + weight_sum l'
  end.

Definition remaining (b : bootstrap) (s : state) : nat :=
  6 * main_weight (length (runners b)) (pc s) +
  opt_weight (wait_task s) + weight_sum (start_tasks s) + opt_weight (onrun_task s).

(** The task of [gs.Wait] and the post-start task start at their call. *)
Definition at_call (o : option task_pc) : Prop :=
  o <> Some TLog /\ o <> Some TSignal.


(** ** Example orchestrators and schedules *)

Definition verbose : Logger := mkLogger (fun _ => true).

Definition one_runner : bootstrap := New [WithRunners [mkRunner "db"]].

Definition two_runners : bootstrap :=
  New [WithRunners [mkRunner "db"]; WithRunners [mkRunner "web"]].

Definition with_hooks : bootstrap :=
  New [WithRunners [mkRunner "db"]; WithBeforeRun (Some (Hook "migrate"));
       WithOnRun (Some (Hook "announce"))].

(** [n] steps of [Run] itself. *)
Definition main_steps (n : nat) : list action := replicate n (AStep GMain).

(** Start task [i] logs, signals the barrier and enters [r.Run]. *)
Definition start_task (i : nat) : list action :=
  [AStep (GStart i); AStep (GStart i); AStep (GStart i)].

(** The task of [gs.Wait] enters the call, which returns [r]. *)
Definition wait_returns (r : err) : list action :=
  [AStep GWait; AReturn GWait r; AStep GWait].

(** One runner whose [Run] returns [context.Canceled] of its own accord,
    up to that return: nobody has cancelled anything. *)
Definition runner_gives_up : list action :=
  main_steps 6 ++ start_task 0 ++ [AReturn (GStart 0) (Some Canceled)].

(** ... and on to the return of [Run]: the controller's [Wait] returns nil. *)
Definition runner_gives_up_end : list action :=
  [AStep (GStart 0)] ++ main_steps 4 ++ [AStep GOnRun] ++ wait_returns None ++
  main_steps 1.

(** Two runners fail one after the other. *)
Definition both_fail : list action :=
  main_steps 9 ++ start_task 0 ++ start_task 1 ++
  [AReturn (GStart 0) (Some (Opaque "db down")); AStep (GStart 0);
   AReturn (GStart 1) (Some (Opaque "port in use")); AStep (GStart 1)] ++
  main_steps 4 ++ [AStep GOnRun] ++ wait_returns None ++ main_steps 1.

(** With both hooks: the pre-start hook succeeds, then [tail]. *)
Definition hooks_then (tail : list action) : list action :=
  main_steps 2 ++ [AReturn GMain None] ++ main_steps 5 ++ start_task 0 ++
  main_steps 3 ++ tail.

(** The post-start hook returns [context.Canceled]; the runner and the
    controller then return nil. *)
Definition onrun_cancelled : list action :=
  hooks_then ([AStep GOnRun; AReturn GOnRun (Some Canceled); AStep GOnRun;
               AReturn (GStart 0) None; AStep (GStart 0)] ++
              wait_returns None ++ main_steps 1).


(** The input context is cancelled, the controller stops the runner, whose
    [Stop] fails; [Wait] returns the cancellation. *)
Definition stop_fails : list action :=
  main_steps 6 ++ start_task 0 ++ main_steps 4 ++
  [AStep GOnRun; AStep GWait; ACancel; AInvoke 0 "context canceled";
   AStep (GCallback 0); AStep (GCallback 0);
   AReturn (GCallback 0) (Some (Opaque "test")); AStep (GCallback 0);
   AReturn GWait (Some Canceled); AStep GWait;
   AReturn (GStart 0) None; AStep (GStart 0)] ++ main_steps 1.

(** An event other than a task of the group returning an error that is no
    cancellation. *)
Definition clean_exit (ev : event) : bool :=
  match ev with
  | EvExit g (Some e) => implb (in_group g) (errors.Is e Canceled)
  | _ => true
  end.

(** ** The configuration functions, by name

    A call of one of the four functions of options.go, and what a list of
    such calls leaves in each field. *)
Inductive config : Type :=
| SetShutdown (g : option Controller)
| SetBeforeRun (f : option HookFunc)
| SetOnRun (f : option HookFunc)
| AddRunners (rs : list Runner).

Definition option_of (c : config) : Option :=
  match c with
  | SetShutdown g => WithShutdown g
  | SetBeforeRun f => WithBeforeRun f
  | SetOnRun f => WithOnRun f
  | AddRunners rs => WithRunners rs
  end.

(** The argument of the last [WithBeforeRun], nil or not. *)
Fixpoint last_before (cs : list config) (d : option HookFunc) : option HookFunc :=
  match cs with
  | [] => d
  | SetBeforeRun f :: cs' => last_before cs' f
  | _ :: cs' => last_before cs' d
  end.

(** The argument of the last [WithOnRun], nil or not. *)
Fixpoint last_onRun (cs : list config) (d : option HookFunc) : option HookFunc :=
  match cs with
  | [] => d
  | SetOnRun f :: cs' => last_onRun cs' f
  | _ :: cs' => last_onRun cs' d
  end.

(** The argument of the last [WithShutdown] that is not nil. *)
Fixpoint last_shutdown (cs : list config) (d : option Controller) : option Controller :=
  match cs with
  | [] => d
  | SetShutdown (Some c) :: cs' => last_shutdown cs' (Some c)
  | _ :: cs' => last_shutdown cs' d
  end.

(** The arguments of all [WithRunners], in order. *)
Fixpoint all_runners (cs : list config) : list Runner :=
  match cs with
  | [] => []
  | AddRunners rs :: cs' => rs ++ all_runners cs'
  | _ :: cs' => all_runners cs'
  end.

(** ** The log records

    What [Run] and the closures it creates write: the error record of
    line 32 when there is nothing to run (if the logger is enabled for the
    error level), and the four information records of lines 50, 57, 64 and
    76, each behind [logger.Enabled(slog.InfoLevel)]. *)
Definition record_of (b : bootstrap) (logger : Logger) (lvl : Level) (msg : string) : Prop :=
  match lvl with
  | ErrorLevel =>
      Enabled logger ErrorLevel = true /\ msg = "no runners, abort." /\ runners b = []
  | InfoLevel =>
      Enabled logger InfoLevel = true /\
      (msg = "bootstrap started." \/
       exists rn, rn ∈ runners b /\
         (msg = "Starting runner: " +:+ Name rn \/
          (exists reason,
              msg = "Stopping runner: " +:+ Name rn +:+ ", cause: " +:+ reason) \/
          msg = "Runner stoped: " +:+ Name rn))
  | _ => False
  end.

(** A logger that is enabled for nothing. *)
Definition silent : Logger := mkLogger (fun _ => false).

(** The state in which a record or a signal of the barrier is written:
    where [Run] or the closure that writes it is. *)
Definition written_at (b : bootstrap) (s : state) (e : event) : Prop :=
  match e with
  | EvSignal i => start_tasks s !! i = Some TSignal
  | EvLog _ msg =>
      (msg = "no runners, abort." /\ pc s = MEntry) \/
      (msg = "bootstrap started." /\ pc s = MStarted) \/
      (exists i rn, runners b !! i = Some rn /\ start_tasks s !! i = Some TLog /\
                    msg = "Starting runner: " +:+ Name rn) \/
      (exists k i reason rn,
          invocations s !! k = Some (i, reason, TLog) /\ runners b !! i = Some rn /\
          msg = "Stopping runner: " +:+ Name rn +:+ ", cause: " +:+ reason) \/
      (exists k i reason rn,
          invocations s !! k = Some (i, reason, TAfter None) /\
          runners b !! i = Some rn /\ msg = "Runner stoped: " +:+ Name rn)
  | EvCall (GCallback k) (CStop i) =>
      exists reason, invocations s !! k = Some (i, reason, TCall)
  | _ => True
  end.

(** The input context is cancelled and the controller stops the runner,
    whose [Stop] returns nil. *)
Definition stop_succeeds : list action :=
  main_steps 6 ++ start_task 0 ++ main_steps 4 ++
  [AStep GOnRun; AStep GWait; ACancel; AInvoke 0 "context canceled";
   AStep (GCallback 0); AStep (GCallback 0);
   AReturn (GCallback 0) None; AStep (GCallback 0)].

(** * Proofs *)

(** ** Lists and counting *)

Lemma count_app {A : Type} (f : A -> bool) (l1 l2 : list A) :
  count f (l1 ++ l2) = count f l1 + count f l2.
Proof. induction l1 as [|x l1 IH]; simpl; [done | rewrite IH; lia]. Qed.

Lemma count_insert {A : Type} (f : A -> bool) (l : list A) (i : nat) (x y : A) :
  l !! i = Some y ->
  count f (<[i := x]> l) + (if f y then 1 else 0) = count f l + (if f x then 1 else 0).
Proof.
  revert i. induction l as [|z l IH]; intros [|i] H; simplify_eq/=.
  - lia.
  - specialize (IH _ H). lia.
Qed.

Lemma count_zero_lookup {A : Type} (f : A -> bool) (l : list A) (i : nat) (y : A) :
  count f l = 0 -> l !! i = Some y -> f y = false.
Proof.
  revert i. induction l as [|z l IH]; intros [|i] H0 H; simplify_eq/=.
  - destruct (f y); [lia | done].
  - apply (IH i); [lia | done].
Qed.

Lemma count_pos_lookup {A : Type} (f : A -> bool) (l : list A) :
  0 < count f l -> exists i y, l !! i = Some y /\ f y = true.
Proof.
  induction l as [|z l IH]; simpl; [lia |].
  destruct (f z) eqn:Hz.
  - intros _. by exists 0, z.
  - intros H. destruct IH as (i & y & ? & ?); [lia |]. by exists (S i), y.
Qed.

Lemma Run_snoc b logger sched a :
  Run b logger (sched ++ [a]) = step b logger a (Run b logger sched).
Proof. unfold Run. by rewrite fold_left_app. Qed.

Lemma Run_app b logger sched1 sched2 :
  Run b logger (sched1 ++ sched2) =
  fold_left (fun s a => step b logger a s) sched2 (Run b logger sched1).
Proof. unfold Run. by rewrite fold_left_app. Qed.

(** An invariant of the initial state that every step keeps holds after
    every schedule. *)
Lemma Run_invariant b logger (P : state -> Prop) :
  P initial ->
  (forall a s, P s -> P (step b logger a s)) ->
  forall sched, P (Run b logger sched).
Proof.
  intros H0 Hstep sched. induction sched as [|a sched IH] using rev_ind.
  - exact H0.
  - rewrite Run_snoc. by apply Hstep.
Qed.

Lemma Inv_initial b : Inv b initial.
Proof. split; try done. Qed.

Ltac open_state s :=
  destruct s as [pc0 wt st ot ivs cbs ee ec wg ws cd cr tr].

Ltac fields :=
  unfold shape, counters, pristine, looped in *; simpl in *;
  destruct_and?; simplify_eq/=.

Ltac split_inv := split; [| split |..].

Ltac close := try done; try lia; try (repeat split; auto; lia); try naive_solver.

#[local] Arguments seq : simpl never.

Lemma Inv_log_info b logger msg s : Inv b s -> Inv b (log_info logger msg s).
Proof.
  unfold log_info. destruct (Enabled logger InfoLevel); [|done].
  intros [Hs Hc Hi Hx]. split; try done.
Qed.

Lemma Forall_registered_app (ivs : list (nat * string * task_pc)) (cbs : list nat) (i : nat) :
  Forall (fun v => v.1.1 ∈ cbs) ivs -> Forall (fun v => v.1.1 ∈ cbs ++ [i]) ivs.
Proof. intros H. eapply Forall_impl; [exact H|]. intros v Hv. apply elem_of_app. by left. Qed.

Lemma Inv_step_main b logger s : Inv b s -> Inv b (step_main b logger s).
Proof.
  intros [Hs [Hw Hg] Hi Hx]. open_state s. unfold step_main. simpl in *.
  destruct pc0; try done.
  - destruct (runners b) eqn:Hr; split_inv; fields; close.
  - destruct (beforeRun b); split_inv; fields; close.
  - split_inv; fields; close.
  - destruct (runners b !! i) eqn:Hr.
    + destruct (gs b) eqn:Hgs.
      * apply lookup_lt_Some in Hr.
        split_inv; fields; rewrite ?seq_S; auto using Forall_registered_app; close.
      * split_inv; fields; close.
    + apply lookup_ge_None in Hr.
      split_inv; fields; close.
      assert (length st = length (runners b)) as Hn by lia. rewrite Hn. done.
  - split_inv; fields; close.
  - split_inv; fields; rewrite ?length_app, ?count_app; simpl; close.
  - destruct (Nat.eqb_spec ws 0); split_inv; fields; close.
  - apply Inv_log_info. split_inv; fields; close.
  - split_inv; fields; close.
  - destruct (Nat.eqb_spec wg 0); split_inv; fields; close.
Qed.

Lemma Inv_return_main b r s : Inv b s -> Inv b (return_main r s).
Proof.
  intros [Hs [Hw Hg] Hi Hx]. open_state s. unfold return_main. simpl in *.
  destruct pc0; try done.
  destruct r; split_inv; fields; close.
Qed.

Ltac task_step pc0 := split_inv; [destruct pc0 | ..]; fields; close.

Lemma Inv_step_wait b s : Inv b s -> Inv b (step_wait b s).
Proof.
  intros [Hs [Hw Hg] Hi Hx]. open_state s. unfold step_wait. simpl in *.
  destruct wt as [[]|]; try done.
  - destruct (gs b) eqn:Hgs; task_step pc0.
  - unfold eg_done. destruct r, ee; task_step pc0.
Qed.

Lemma Inv_return_wait b r s : Inv b s -> Inv b (return_wait r s).
Proof.
  intros [Hs [Hw Hg] Hi Hx]. open_state s. unfold return_wait. simpl in *.
  destruct wt as [[]|]; try done. task_step pc0.
Qed.

Lemma Inv_step_onrun b s : Inv b s -> Inv b (step_onrun b s).
Proof.
  intros [Hs [Hw Hg] Hi Hx]. open_state s. unfold step_onrun. simpl in *.
  destruct ot as [[]|]; try done.
  - destruct (onRun b) eqn:Hgs; task_step pc0.
  - unfold eg_done. destruct r, ee; task_step pc0.
Qed.

Lemma Inv_return_onrun b r s : Inv b s -> Inv b (return_onrun r s).
Proof.
  intros [Hs [Hw Hg] Hi Hx]. open_state s. unfold return_onrun. simpl in *.
  destruct ot as [[]|]; try done. task_step pc0.
Qed.


Ltac count_facts Hst x :=
  let H1 := fresh "Hcu" in
  let H2 := fresh "Hcl" in
  pose proof (count_insert unsignalled _ _ x _ Hst) as H1;
  pose proof (count_insert live _ _ x _ Hst) as H2;
  simpl in H1, H2.

Ltac start_step pc0 :=
  split_inv; [destruct pc0 | ..]; fields; rewrite ?length_insert; close.

Lemma Inv_step_start b logger i s : Inv b s -> Inv b (step_start b logger i s).
Proof.
  intros [Hs [Hw Hg] Hi Hx]. open_state s. unfold step_start. simpl in *.
  destruct (st !! i) as [p|] eqn:Hst; [|done].
  destruct (runners b !! i) as [rn|] eqn:Hr; [|done].
  destruct p; try done.
  - apply Inv_log_info. count_facts Hst TSignal. start_step pc0.
  - count_facts Hst TCall. start_step pc0.
  - count_facts Hst TBlocked. start_step pc0.
  - set (res := errors.WithMessagef r _). count_facts Hst (TDone res).
    unfold eg_done. destruct res, ee; start_step pc0.
Qed.

Lemma Inv_return_start b i r s : Inv b s -> Inv b (return_start i r s).
Proof.
  intros [Hs [Hw Hg] Hi Hx]. open_state s. unfold return_start. simpl in *.
  destruct (st !! i) as [[]|] eqn:Hst; try done.
  count_facts Hst (TAfter r). start_step pc0.
Qed.

Lemma Inv_invoke b i reason s : Inv b s -> Inv b (invoke i reason s).
Proof.
  intros [Hs [Hw Hg] Hi Hx]. open_state s. unfold invoke. simpl in *.
  case_bool_decide as Hin; [|done].
  assert (cbs <> []) as Hne by (intros ->; by apply not_elem_of_nil in Hin).
  split_inv.
  - destruct pc0; fields; close.
  - fields; close.
  - fields; close.
  - fields. apply Forall_app. split; [done|]. by apply Forall_singleton.
  - fields; close.
Qed.

Lemma Inv_emit b evs s : Inv b s -> Inv b (emit evs s).
Proof. intros [Hs Hc Hi Hx]. by split. Qed.

Lemma Inv_set_invocation b k i reason p q s :
  invocations s !! k = Some (i, reason, p) ->
  Inv b s -> Inv b (set_invocation k (i, reason, q) s).
Proof.
  intros Hk [Hs [Hw Hg] Hi Hx]. open_state s. simpl in *.
  assert (ivs <> []) as Hne by (by intros ->).
  split_inv.
  - destruct pc0; fields; try done. destruct Hs as [Hs|Hs]; [|by right].
    by destruct Hs as (_ & _ & _ & _ & ? & _).
  - done.
  - done.
  - simpl. apply Forall_insert; [done|]. by eapply (Forall_lookup_1 _ _ _ _ Hi Hk).
  - done.
Qed.

Lemma Inv_step_callback b logger k s : Inv b s -> Inv b (step_callback b logger k s).
Proof.
  intros H. unfold step_callback.
  destruct (invocations s !! k) as [[[i reason] p]|] eqn:Hk; [|done].
  destruct (runners b !! i) as [rn|] eqn:Hr; [|done].
  destruct p as [| | | |[e|]|]; try done;
    repeat first [apply Inv_log_info | apply Inv_emit];
    by eapply Inv_set_invocation.
Qed.

Lemma Inv_return_callback b k r s : Inv b s -> Inv b (return_callback k r s).
Proof.
  intros H. unfold return_callback.
  destruct (invocations s !! k) as [[[i reason] p]|] eqn:Hk; [|done].
  destruct p; try done. apply Inv_emit. by eapply Inv_set_invocation.
Qed.

Lemma Inv_step b logger a s : Inv b s -> Inv b (step b logger a s).
Proof.
  intros H. unfold step. destruct (crashed s) eqn:Hcr; [done|].
  destruct a as [|[]|[]|].
  - destruct H as [Hs [Hw Hg] Hi Hx]. open_state s.
    split_inv; [destruct pc0 | ..]; fields; close.
  - by apply Inv_step_main.
  - by apply Inv_step_wait.
  - by apply Inv_step_start.
  - by apply Inv_step_onrun.
  - by apply Inv_step_callback.
  - by apply Inv_return_main.
  - by apply Inv_return_wait.
  - by apply Inv_return_start.
  - by apply Inv_return_onrun.
  - by apply Inv_return_callback.
  - by apply Inv_invoke.
Qed.

Lemma Inv_Run b logger sched : Inv b (Run b logger sched).
Proof. apply Run_invariant; [apply Inv_initial | intros; by apply Inv_step]. Qed.

(** ** Histories *)

Lemma proj_app g t1 t2 : proj g (t1 ++ t2) = proj g t1 ++ proj g t2.
Proof. apply List.filter_app. Qed.

Lemma first_error_app t1 t2 :
  first_error (t1 ++ t2) =
  match first_error t1 with
  | Some e => Some e
  | None => first_error t2
  end.
Proof.
  induction t1 as [|e t1 IH]; simpl; [done|].
  destruct e; try done. destruct res; [|done]. by destruct (in_group g).
Qed.

Lemma Unwrap_WithMessagef r msg : errors.Unwrap (errors.WithMessagef r msg) = r.
Proof. by destruct r. Qed.

Lemma gid_eqb_refl g : gid_eqb g g = true.
Proof. destruct g; simpl; auto using Nat.eqb_refl. Qed.

Lemma Hist_initial b : Hist b initial.
Proof. split; try done. Qed.

Ltac proj_simpl :=
  rewrite ?proj_app; cbn [proj List.filter owned owner gid_eqb]; rewrite ?app_nil_r.

Ltac open_hist H :=
  destruct H as [Hm Hw Hst Ho Hcb He Hsg Hoe Hsp Hemp Hne Hf Hib].

Lemma Hist_emit_log b lvl msg s : Hist b s -> Hist b (emit [EvLog lvl msg] s).
Proof.
  intros H. open_hist H. open_state s. simpl in *.
  split; simpl; intros; proj_simpl; eauto.
  rewrite first_error_app. simpl. by destruct (first_error tr).
Qed.

Lemma Hist_log_info b logger msg s : Hist b s -> Hist b (log_info logger msg s).
Proof.
  unfold log_info. destruct (Enabled logger InfoLevel); [|done].
  apply Hist_emit_log.
Qed.

Lemma first_error_snoc_other t e :
  (forall g x, e = EvExit g (Some x) -> in_group g = false) ->
  first_error (t ++ [e]) = first_error t.
Proof.
  intros H. rewrite first_error_app. destruct (first_error t); [done|]. simpl.
  destruct e; try done. destruct res; [|done]. by rewrite (H g e).
Qed.

Ltac state_simpl :=
  cbn [pc wait_task start_tasks onrun_task invocations callbacks eg_err
       eg_cancelled eg_wg waitStart ctx_done crashed trace
       emit set_pc set_wait_task set_start_tasks set_onrun_task
       set_invocations set_callbacks set_eg_err set_eg_cancelled set_eg_wg
       set_waitStart set_ctx_done set_crashed set_trace
       eg_Go set_start set_invocation main_history history_of].

Ltac absurd_hyp :=
  match goal with
  | H : ?x = ?x -> is_Some None |- _ => destruct (H eq_refl) as [? ?]; discriminate
  | H : is_Some None |- _ => destruct H; discriminate
  | H : ?x <> ?x |- _ => by destruct H
  end.

Ltac hist_close :=
  intros; unfold main_history in *; simpl in *; proj_simpl;
  rewrite ?first_error_app; cbn [first_error in_group];
  repeat match goal with
  | H : proj _ _ = _ |- _ => rewrite H
  | H : forall _, proj _ _ = _ |- _ => rewrite H
  | H : _ = first_error _ |- _ => rewrite <- H
  end;
  simpl;
  first [ done | by eauto | congruence | absurd_hyp
        | by (match goal with H : _ -> _ -> runners _ <> [] |- _ => apply H end;
              [done | intros; simplify_eq])
        | by rewrite <- ?app_assoc
        | by destruct (first_error _)
        | by (match goal with |- ?x = match ?x with _ => _ end => destruct x end)
        | by (match goal with |- ?x = match match ?x with _ => _ end with _ => _ end =>
                destruct x end)
        | by (simplify_eq/=; eauto)
        | idtac ].

Lemma history_snoc_TLog i st :
  history_of (start_history i) (st !! i) =
  history_of (start_history i) ((st ++ [TLog]) !! i).
Proof.
  destruct (decide (i < length st)) as [Hlt|Hge].
  - by rewrite lookup_app_l.
  - rewrite (lookup_ge_None_2 st i) by lia.
    destruct (decide (i = length st)) as [->|Hne].
    + by rewrite list_lookup_middle.
    + rewrite lookup_ge_None_2; [done|]. rewrite length_app. simpl. lia.
Qed.

Lemma Hist_step_main b logger s : Inv b s -> Hist b s -> Hist b (step_main b logger s).
Proof.
  intros [Hs _ _ _] H. open_hist H. open_state s. unfold step_main. simpl in *.
  destruct pc0; try done.
  - destruct (runners b) eqn:Hr; [unfold Log; destruct (Enabled logger ErrorLevel)|];
      fields; split; hist_close.
  - destruct (beforeRun b) eqn:Hb; fields; split; hist_close;
      unfold hook_part; by rewrite Hb.
  - fields; split; hist_close.
  - destruct (runners b !! i) eqn:Hr.
    + destruct (gs b) eqn:Hgs; fields; split; hist_close.
    + apply lookup_ge_None in Hr. fields.
      assert (length st = length (runners b)) as Hn by lia.
      split; hist_close.
  - fields; split; hist_close.
  - fields; split; hist_close.
    + unfold upto_loop. simpl. by rewrite <- !app_assoc.
    + apply history_snoc_TLog.
    + match goal with H : (_ ++ _) !! _ = Some _ |- _ =>
        apply lookup_snoc_Some in H as [[_ ?]|[_ <-]]; [eauto | done] end.
  - destruct (Nat.eqb_spec ws 0); fields; split; hist_close.
  - apply Hist_log_info. fields; split; hist_close.
  - fields; split; hist_close.
  - destruct (Nat.eqb_spec wg 0); fields; [|split; hist_close].
    match goal with H : is_Some wt |- _ => destruct H as [? ->] end.
    split; hist_close.
Qed.

Lemma Hist_return_main b r s : Inv b s -> Hist b s -> Hist b (return_main r s).
Proof.
  intros [Hs _ _ _] H. open_hist H. open_state s. unfold return_main. simpl in *.
  destruct pc0; try done. fields.
  destruct r; split; hist_close.
  unfold hook_part. by destruct (Hib eq_refl) as [? ->].
Qed.

Lemma Hist_step_wait b s : Hist b s -> Hist b (step_wait b s).
Proof.
  intros H. open_hist H. open_state s. unfold step_wait. simpl in *.
  destruct wt as [[]|]; try done.
  - destruct (gs b) eqn:Hgs; split; hist_close.
  - unfold eg_done. destruct r, ee; split; hist_close.
Qed.

Lemma Hist_return_wait b r s : Hist b s -> Hist b (return_wait r s).
Proof.
  intros H. open_hist H. open_state s. unfold return_wait. simpl in *.
  destruct wt as [[]|]; try done. split; hist_close.
Qed.

Lemma Hist_step_onrun b s : Hist b s -> Hist b (step_onrun b s).
Proof.
  intros H. open_hist H. open_state s. unfold step_onrun. simpl in *.
  destruct ot as [[]|]; try done.
  - destruct (onRun b) eqn:Hon; split; hist_close;
      unfold onrun_wrapped; simplify_eq/=; by rewrite ?Hon.
  - pose proof (Hoe _ eq_refl) as [f Hon]. simpl in Hon.
    unfold eg_done. destruct r, ee; split; hist_close;
      unfold onrun_wrapped; simplify_eq/=; by rewrite ?Hon.
Qed.

Lemma Hist_return_onrun b r s : Hist b s -> Hist b (return_onrun r s).
Proof.
  intros H. open_hist H. open_state s. unfold return_onrun. simpl in *.
  destruct ot as [[]|]; try done.
  pose proof (Hoe _ eq_refl) as Hon. simpl in Hon.
  split; hist_close.
Qed.

Lemma Hist_cancel b s : Hist b s -> Hist b (emit [EvCancel] (set_ctx_done true s)).
Proof. intros H. open_hist H. open_state s. simpl in *. split; hist_close. Qed.

(** A step of start task [i], from [p] to [q], that appends [evs]. *)
Lemma start_history_step tr tr' (st : list task_pc) i p q evs :
  (forall j, proj (GStart j) tr = history_of (start_history j) (st !! j)) ->
  st !! i = Some p ->
  tr' = tr ++ evs ->
  start_history i p ++ proj (GStart i) evs = start_history i q ->
  (forall j, j <> i -> proj (GStart j) evs = []) ->
  forall j, proj (GStart j) tr' =
            history_of (start_history j) (<[i := q]> st !! j).
Proof.
  intros Hst Hi -> Hq Hother j. rewrite proj_app, Hst.
  destruct (decide (j = i)) as [->|Hne].
  - rewrite list_lookup_insert_eq by (by eapply lookup_lt_Some).
    rewrite Hi. simpl. done.
  - rewrite list_lookup_insert_ne by done. rewrite Hother by done.
    by rewrite app_nil_r.
Qed.

Lemma proj_start_singleton_ne j i e :
  j <> i -> owner e = Some (GStart i) -> proj (GStart j) [e] = [].
Proof.
  intros Hne He. unfold proj, owned. simpl. rewrite He. simpl.
  by destruct (Nat.eqb_spec j i).
Qed.

Lemma wrapped_insert (b : bootstrap) (f : Runner -> string) (st : list task_pc) i q :
  (forall j p rn, st !! j = Some p -> runners b !! j = Some rn -> wrapped (f rn) p) ->
  (forall rn, runners b !! i = Some rn -> wrapped (f rn) q) ->
  forall j p rn, <[i := q]> st !! j = Some p -> runners b !! j = Some rn ->
                 wrapped (f rn) p.
Proof.
  intros Hall Hq j p rn Hj Hr.
  destruct (decide (j = i)) as [->|Hne].
  - apply list_lookup_insert_Some in Hj as [(_ & <- & _)|(? & _)]; [eauto | done].
  - rewrite list_lookup_insert_ne in Hj by done. eauto.
Qed.

Ltac start_fields Hst Hi Hsg :=
  split;
  [ | | simpl; eapply start_history_step;
        [ exact Hst | exact Hi
        | first [reflexivity | symmetry; apply app_nil_r]
        | cbn [proj List.filter owned owner gid_eqb start_history call_history];
          rewrite ?Nat.eqb_refl; try done
        | let j := fresh "j" in let Hj := fresh "Hj" in
          intros j Hj; cbn [proj List.filter owned owner gid_eqb app];
          repeat match goal with
                 | |- context [Nat.eqb j ?i] => destruct (Nat.eqb_spec j i)
                 end; done ]
    | | |
    | simpl; eapply wrapped_insert; [exact Hsg |]; intros; simplify_eq/=; try done
    | .. ];
  try hist_close.

Lemma Hist_step_start b logger i s : Hist b s -> Hist b (step_start b logger i s).
Proof.
  intros H. unfold step_start.
  destruct (start_tasks s !! i) as [p|] eqn:Hi; [|done].
  destruct (runners b !! i) as [rn|] eqn:Hr; [|done].
  destruct p; try done.
  - apply Hist_log_info. open_hist H. open_state s. simpl in *.
    start_fields Hst Hi Hsg.
  - open_hist H. open_state s. simpl in *. start_fields Hst Hi Hsg.
  - open_hist H. open_state s. simpl in *. start_fields Hst Hi Hsg.
  - open_hist H. open_state s. simpl in *.
    unfold eg_done. destruct r, ee; start_fields Hst Hi Hsg.
Qed.

Lemma Hist_return_start b i r s : Hist b s -> Hist b (return_start i r s).
Proof.
  intros H. unfold return_start.
  destruct (start_tasks s !! i) as [[]|] eqn:Hi; try done.
  open_hist H. open_state s. simpl in *. start_fields Hst Hi Hsg.
Qed.

(** A step of callback invocation [k] that appends [evs]. *)
Lemma callback_history_step tr tr' (ivs : list (nat * string * task_pc)) k v w evs :
  (forall j, proj (GCallback j) tr = history_of (callback_history j) (ivs !! j)) ->
  ivs !! k = Some v ->
  tr' = tr ++ evs ->
  callback_history k v ++ proj (GCallback k) evs = callback_history k w ->
  (forall j, j <> k -> proj (GCallback j) evs = []) ->
  forall j, proj (GCallback j) tr' =
            history_of (callback_history j) (<[k := w]> ivs !! j).
Proof.
  intros Hcb Hk -> Hw Hother j. rewrite proj_app, Hcb.
  destruct (decide (j = k)) as [->|Hne].
  - rewrite list_lookup_insert_eq by (by eapply lookup_lt_Some).
    rewrite Hk. simpl. done.
  - rewrite list_lookup_insert_ne by done. rewrite Hother by done.
    by rewrite app_nil_r.
Qed.

Lemma stopping_insert (b : bootstrap) (ivs : list (nat * string * task_pc)) k i reason q :
  (forall j i' reason' p rn, ivs !! j = Some (i', reason', p) ->
     runners b !! i' = Some rn -> wrapped (stopping rn) p) ->
  (forall rn, runners b !! i = Some rn -> wrapped (stopping rn) q) ->
  forall j i' reason' p rn, <[k := (i, reason, q)]> ivs !! j = Some (i', reason', p) ->
    runners b !! i' = Some rn -> wrapped (stopping rn) p.
Proof.
  intros Hall Hq j i' reason' p rn Hj Hr.
  destruct (decide (j = k)) as [->|Hne].
  - apply list_lookup_insert_Some in Hj as [(_ & ? & _)|(? & _)]; [|done].
    simplify_eq. eauto.
  - rewrite list_lookup_insert_ne in Hj by done. eauto.
Qed.

Ltac callback_fields Hcb Hk Hsp :=
  split;
  [ | | | | simpl; eapply callback_history_step;
        [ exact Hcb | exact Hk
        | first [reflexivity | symmetry; apply app_nil_r | symmetry; apply app_assoc]
        | cbn [proj List.filter owned owner gid_eqb callback_history call_history fst snd app];
          rewrite ?Nat.eqb_refl; try done
        | let j := fresh "j" in let Hj := fresh "Hj" in
          intros j Hj; cbn [proj List.filter owned owner gid_eqb app];
          repeat match goal with
                 | |- context [Nat.eqb j ?i] => destruct (Nat.eqb_spec j i)
                 end; done ]
    | | | | simpl; eapply stopping_insert; [exact Hsp |]; intros; simplify_eq/=; try done
    | .. ];
  try hist_close.

Lemma Hist_step_callback b logger k s : Hist b s -> Hist b (step_callback b logger k s).
Proof.
  intros H. unfold step_callback.
  destruct (invocations s !! k) as [[[i reason] p]|] eqn:Hk; [|done].
  destruct (runners b !! i) as [rn|] eqn:Hr; [|done].
  destruct p as [| | | |[e|]|]; try done.
  - apply Hist_log_info. open_hist H. open_state s. simpl in *.
    callback_fields Hcb Hk Hsp.
  - open_hist H. open_state s. simpl in *. callback_fields Hcb Hk Hsp.
  - open_hist H. open_state s. simpl in *. callback_fields Hcb Hk Hsp.
  - open_hist H. open_state s. unfold log_info. simpl in *.
    destruct (Enabled logger InfoLevel); simpl.
    + callback_fields Hcb Hk Hsp.
    + callback_fields Hcb Hk Hsp.
Qed.

Lemma Hist_return_callback b k r s : Hist b s -> Hist b (return_callback k r s).
Proof.
  intros H. unfold return_callback.
  destruct (invocations s !! k) as [[[i reason] p]|] eqn:Hk; [|done].
  destruct p; try done.
  open_hist H. open_state s. simpl in *. callback_fields Hcb Hk Hsp.
Qed.

Lemma history_snoc_invocation k (ivs : list (nat * string * task_pc)) i reason :
  history_of (callback_history k) (ivs !! k) ++
    proj (GCallback k) [EvInvoke (length ivs) i reason] =
  history_of (callback_history k) ((ivs ++ [(i, reason, TLog)]) !! k).
Proof.
  cbn [proj List.filter owned owner gid_eqb].
  destruct (Nat.eqb_spec k (length ivs)) as [->|Hne].
  - rewrite list_lookup_middle by done. by rewrite lookup_ge_None_2 by lia.
  - rewrite app_nil_r. destruct (decide (k < length ivs)).
    + by rewrite lookup_app_l.
    + rewrite !lookup_ge_None_2; [done | | lia]. rewrite length_app. simpl. lia.
Qed.

Lemma Hist_invoke b i reason s : Hist b s -> Hist b (invoke i reason s).
Proof.
  intros H. unfold invoke. case_bool_decide as Hin; [|done].
  open_hist H. open_state s. simpl in *.
  split; [ | | | | intros k; simpl; rewrite proj_app, Hcb; apply history_snoc_invocation
         | | | | | .. ]; try hist_close.
  match goal with H : (_ ++ _) !! _ = Some _ |- _ =>
    apply lookup_snoc_Some in H as [[_ ?]|[_ ?]]; [eauto | by simplify_eq] end.
Qed.

Lemma Hist_step b logger a s : Inv b s -> Hist b s -> Hist b (step b logger a s).
Proof.
  intros HI H. unfold step. destruct (crashed s) eqn:Hcr; [done|].
  destruct a as [|[]|[]|].
  - by apply Hist_cancel.
  - by apply Hist_step_main.
  - by apply Hist_step_wait.
  - by apply Hist_step_start.
  - by apply Hist_step_onrun.
  - by apply Hist_step_callback.
  - by apply Hist_return_main.
  - by apply Hist_return_wait.
  - by apply Hist_return_start.
  - by apply Hist_return_onrun.
  - by apply Hist_return_callback.
  - by apply Hist_invoke.
Qed.

Lemma Hist_Run b logger sched : Hist b (Run b logger sched).
Proof.
  cut (Inv b (Run b logger sched) /\ Hist b (Run b logger sched)); [tauto|].
  apply (Run_invariant b logger (fun s => Inv b s /\ Hist b s)).
  - split; [apply Inv_initial | apply Hist_initial].
  - intros a s [HI H]. split; [by apply Inv_step | by apply Hist_step].
Qed.

(** ** The configuration builder *)

Lemma configuration_keeps_gs opt b :
  configuration opt -> is_Some (gs b) -> is_Some (gs (opt b)).
Proof. intros [[c|]| | |] H; simpl; eauto. Qed.

Lemma fold_configuration_keeps_gs opts b :
  Forall configuration opts -> is_Some (gs b) ->
  is_Some (gs (fold_left (fun b opt => opt b) opts b)).
Proof.
  intros Hall. revert b. induction Hall as [|opt opts Hopt _ IH]; intros b Hb; simpl.
  - done.
  - apply IH. by apply configuration_keeps_gs.
Qed.

Lemma New_snoc opts opt : New (opts ++ [opt]) = opt (New opts).
Proof. unfold New. by rewrite fold_left_app. Qed.

(** C6: after [New], whatever configuration functions of options.go were
    given, the shutdown controller is not nil.  [New] starts from the
    graceful controller with the timeout of one second; [WithShutdown(nil)]
    changes nothing, [WithShutdown] of a controller installs it. *)
Theorem New_gs_never_nil :
  (gs (New []) = Some defaultController /\
   In (WithTimeout Second) (controller_options defaultController)) /\
  (forall opts, Forall configuration opts -> is_Some (gs (New opts))) /\
  (forall opts, New (opts ++ [WithShutdown None]) = New opts) /\
  (forall opts c, gs (New (opts ++ [WithShutdown (Some c)])) = Some c).
Proof.
  repeat split.
  - simpl. by left.
  - intros opts Hall. apply fold_configuration_keeps_gs; [done | by eexists].
  - intros opts. by rewrite New_snoc.
  - intros opts c. by rewrite New_snoc.
Qed.

Lemma New_gs_never_nil_witness :
  is_Some (gs (New [WithRunners [mkRunner "db"]; WithShutdown None;
                    WithBeforeRun None; WithShutdown (Some (Custom "mock"));
                    WithShutdown None])).
Proof.
  apply (proj1 (proj2 New_gs_never_nil)).
  repeat constructor.
Defined.

(** C9: [WithBeforeRun(nil)] and [WithOnRun(nil)] store nil over whatever
    hook was configured: they are not a no-op, unlike [WithShutdown(nil)]. *)
Theorem nil_hook_clears :
  (forall b, beforeRun (WithBeforeRun None b) = None) /\
  (forall b, onRun (WithOnRun None b) = None) /\
  (forall opts f, beforeRun (New (opts ++ [WithBeforeRun (Some f); WithBeforeRun None])) = None) /\
  (forall opts f, onRun (New (opts ++ [WithOnRun (Some f); WithOnRun None])) = None) /\
  (forall b f, beforeRun b = Some f -> WithBeforeRun None b <> b) /\
  (forall b f, onRun b = Some f -> WithOnRun None b <> b) /\
  (forall b, WithShutdown None b = b).
Proof.
  repeat split; try done.
  - intros opts f. unfold New. by rewrite fold_left_app.
  - intros opts f. unfold New. by rewrite fold_left_app.
  - intros b f Hf Heq. rewrite <- Heq in Hf. done.
  - intros b f Hf Heq. rewrite <- Heq in Hf. done.
Qed.

Lemma nil_hook_clears_witness :
  WithBeforeRun None (New [WithBeforeRun (Some (Hook "warmup"))]) <>
  New [WithBeforeRun (Some (Hook "warmup"))].
Proof.
  apply (proj1 (proj2 (proj2 (proj2 (proj2 nil_hook_clears)))) _ (Hook "warmup")).
  reflexivity.
Defined.

(** ** [Run] without runners *)

Lemma effects_app t1 t2 : effects (t1 ++ t2) = effects t1 ++ effects t2.
Proof. apply List.filter_app. Qed.

Lemma Run_empty b logger sched :
  runners b = [] -> empty_run logger sched (Run b logger sched).
Proof.
  intros Hr. induction sched as [|a sched IH] using rev_ind.
  - by repeat split.
  - rewrite Run_snoc. unfold empty_run in *. rewrite existsb_app. simpl.
    destruct IH as (Hp & Hc & IH). unfold step. rewrite Hc.
    set (s := Run b logger sched) in *. clearbody s. open_state s.
    unfold pristine in *. simpl in *. destruct_and?. simplify_eq/=.
    destruct (existsb is_main_step sched); destruct IH as [-> IH]; simpl.
    + destruct a as [|[]|[]|]; simpl; rewrite ?effects_app, ?IH, ?app_nil_r; try done.
    + destruct a as [|[]|[]|]; simpl; rewrite ?effects_app, ?IH; try done.
      unfold step_main, Log. simpl. rewrite Hr. simpl. rewrite ?effects_app, ?IH.
      by destruct (Enabled logger ErrorLevel).
Qed.

Lemma logs_effects t : logs (effects t) = logs t.
Proof.
  induction t as [|e t IH]; [done|].
  destruct e; simpl; rewrite ?IH; done.
Qed.

Lemma elem_of_effects e t : e ∈ t -> e <> EvCancel -> e ∈ effects t.
Proof.
  intros Hin Hne. unfold effects. apply list_elem_of_In, List.filter_In.
  split; [by apply list_elem_of_In|]. by rewrite bool_decide_eq_false_2.
Qed.

Lemma main_step_scheduled sched :
  AStep GMain ∈ sched <-> existsb is_main_step sched = true.
Proof.
  rewrite existsb_exists. split.
  - intros Hin. exists (AStep GMain). split; [by apply list_elem_of_In | done].
  - intros ([|[]| |] & Hin & Hm); try done. by apply list_elem_of_In.
Qed.

Lemma logs_Log logger lvl msg t :
  logs (Log logger lvl msg ++ t) =
  (if Enabled logger lvl then [(lvl, msg)] else []) ++ logs t.
Proof. unfold Log. by destruct (Enabled logger lvl). Qed.

(** C8, as the code has it: without runners, [Run] returns nil at its first
    step, and what it logs is at most one record: the record
    ["no runners, abort."] at error level when the logger is enabled for
    that level, and nothing when it is not. *)
Theorem Run_no_runners b logger sched :
  runners b = [] ->
  (AStep GMain ∈ sched ->
   result (Run b logger sched) = Some None /\
   logs (trace (Run b logger sched)) =
     if Enabled logger ErrorLevel then [(ErrorLevel, "no runners, abort.")] else []) /\
  (AStep GMain ∉ sched ->
   result (Run b logger sched) = None /\ logs (trace (Run b logger sched)) = []).
Proof.
  intros Hr. destruct (Run_empty b logger sched Hr) as (_ & _ & H).
  unfold result. split; intros Hin.
  - apply main_step_scheduled in Hin. rewrite Hin in H. destruct H as [-> H].
    split; [done|]. rewrite <- logs_effects, H, logs_Log. simpl.
    by rewrite app_nil_r.
  - destruct (existsb is_main_step sched) eqn:Hm.
    + by apply main_step_scheduled in Hm.
    + destruct H as [-> H]. split; [done|]. by rewrite <- logs_effects, H.
Qed.

Lemma Run_no_runners_witness :
  result (Run (New [WithBeforeRun (Some (Hook "migrate"))]) (mkLogger (fun _ => true))
            [ACancel; AStep GMain; AStep GWait]) = Some None /\
  logs (trace (Run (New [WithBeforeRun (Some (Hook "migrate"))]) (mkLogger (fun _ => true))
                 [ACancel; AStep GMain; AStep GWait])) =
    [(ErrorLevel, "no runners, abort.")].
Proof.
  apply (Run_no_runners (New [WithBeforeRun (Some (Hook "migrate"))])
           (mkLogger (fun _ => true))).
  - reflexivity.
  - apply list_elem_of_In. simpl. tauto.
Defined.

(** C8 as stated fails: with a logger that is not enabled for the error
    level, [Run] of an orchestrator without runners returns nil and no
    record at all is written. *)
Lemma Run_no_runners_disabled_logger :
  runners (New []) = [] /\
  Enabled silent ErrorLevel = false /\
  result (Run (New []) silent [AStep GMain]) = Some None /\
  logs (trace (Run (New []) silent [AStep GMain])) = [] /\
  logs (trace (Run (New []) silent [AStep GMain])) <>
    [(ErrorLevel, "no runners, abort.")].
Proof.
  repeat split; try (vm_compute; reflexivity).
  vm_compute. discriminate.
Qed.

(** C10: without runners, [Run] returns before it looks at the pre-start
    hook: whatever the orchestrator holds and whatever the schedule, no call
    leaves the package (no hook, no [gs.Wait], no runner), no callback is
    registered, no task is spawned; all [Run] does is the error record
    (which the logger writes when it is enabled for the error level) and
    the return of nil. *)
Theorem Run_no_runners_only_logs b logger sched :
  runners b = [] ->
  (forall g c, EvCall g c ∉ trace (Run b logger sched)) /\
  (forall i, EvRegister i ∉ trace (Run b logger sched)) /\
  (forall g, EvSpawn g ∉ trace (Run b logger sched)) /\
  callbacks (Run b logger sched) = [] /\
  (forall e, e ∈ effects (trace (Run b logger sched)) ->
             e = EvLog ErrorLevel "no runners, abort." \/ e = EvReturn None) /\
  (effects (trace (Run b logger sched)) = [] \/
   effects (trace (Run b logger sched)) =
     Log logger ErrorLevel "no runners, abort." ++ [EvReturn None]).
Proof.
  intros Hr. destruct (Run_empty b logger sched Hr) as (Hp & _ & H).
  assert (forall e, e ∈ effects (trace (Run b logger sched)) ->
            e = EvLog ErrorLevel "no runners, abort." \/ e = EvReturn None) as Heff.
  { intros e Hin.
    destruct (existsb is_main_step sched); destruct H as [_ H]; rewrite H in Hin.
    - unfold Log in Hin. destruct (Enabled logger ErrorLevel); simpl in Hin.
      + apply elem_of_cons in Hin as [->|Hin]; [by left|].
        apply list_elem_of_singleton in Hin as ->. by right.
      + apply list_elem_of_singleton in Hin as ->. by right.
    - by apply not_elem_of_nil in Hin. }
  assert (forall e, e ∈ trace (Run b logger sched) -> e <> EvCancel ->
            e = EvLog ErrorLevel "no runners, abort." \/ e = EvReturn None) as Hev.
  { intros e Hin Hne. apply Heff. by apply elem_of_effects. }
  split; [|split; [|split; [|split; [|split]]]].
  - intros g c Hin. by destruct (Hev _ Hin).
  - intros i Hin. by destruct (Hev _ Hin).
  - intros g Hin. by destruct (Hev _ Hin).
  - apply Hp.
  - exact Heff.
  - destruct (existsb is_main_step sched); destruct H as [_ H]; auto.
Qed.

Lemma Run_no_runners_only_logs_witness :
  EvCall GMain CBeforeRun ∉
    trace (Run (New [WithBeforeRun (Some (Hook "migrate"))]) (mkLogger (fun _ => true))
             [AStep GMain; AStep GMain; AReturn GMain None; AStep GWait; AInvoke 0 "sig"]).
Proof.
  apply (Run_no_runners_only_logs (New [WithBeforeRun (Some (Hook "migrate"))])).
  reflexivity.
Defined.

(** ** The pre-start hook *)

Lemma elem_of_proj e g t : e ∈ t -> owner e = Some g -> e ∈ proj g t.
Proof.
  intros Hin Ho. apply list_elem_of_In, List.filter_In.
  split; [by apply list_elem_of_In|]. unfold owned. rewrite Ho. apply gid_eqb_refl.
Qed.

Lemma proj_elem_of e g t : e ∈ proj g t -> e ∈ t.
Proof. intros Hin. apply list_elem_of_In, List.filter_In in Hin as [? _]. by apply list_elem_of_In. Qed.

Lemma elem_of_hook_part e b :
  e ∈ hook_part b ->
  is_Some (beforeRun b) /\ (e = EvCall GMain CBeforeRun \/ e = EvRet GMain CBeforeRun None).
Proof.
  unfold hook_part. destruct (beforeRun b); [|by intros ?%not_elem_of_nil].
  intros Hin. split; [by eexists|].
  apply elem_of_cons in Hin as [->|Hin]; [by left|].
  apply list_elem_of_singleton in Hin as ->. by right.
Qed.

Lemma elem_of_loop_part e i :
  e ∈ loop_part i <-> exists j, j < i /\ (e = EvRegister j \/ e = EvSpawn (GStart j)).
Proof.
  induction i as [|i IH]; simpl.
  - split; [by intros ?%not_elem_of_nil | intros (j & ? & _); lia].
  - rewrite elem_of_app, IH. split.
    + intros [(j & ? & ?)|Hin]; [exists j; split; [lia | done]|].
      exists i. split; [lia|].
      apply elem_of_cons in Hin as [->|Hin]; [by left|].
      apply list_elem_of_singleton in Hin as ->. by right.
    + intros (j & Hj & He). destruct (decide (j = i)) as [->|Hne].
      * right. destruct He as [->| ->]; [by left | right; by left].
      * left. exists j. split; [lia | done].
Qed.

Lemma elem_of_upto_loop e b i :
  e ∈ upto_loop b i ->
  e = EvCall GMain CBeforeRun \/ e = EvRet GMain CBeforeRun None \/
  e = EvSpawn GWait \/ exists j, j < i /\ (e = EvRegister j \/ e = EvSpawn (GStart j)).
Proof.
  unfold upto_loop. rewrite !elem_of_app.
  intros [Hin|[Hin|Hin]].
  - apply elem_of_hook_part in Hin as [_ [?|?]]; auto.
  - apply list_elem_of_singleton in Hin. auto.
  - apply elem_of_loop_part in Hin. auto.
Qed.

(** When the pre-start hook returned an error, [Run] has returned it and
    nothing else has happened. *)
Lemma hook_failed b s e :
  Inv b s -> Hist b s -> EvRet GMain CBeforeRun (Some e) ∈ trace s ->
  pc s = MReturned (Some e) /\ pristine s.
Proof.
  intros [Hs _ _ _] H Hin. apply (elem_of_proj _ GMain) in Hin; [|done].
  rewrite (h_main _ _ H) in Hin. unfold main_history, shape in *.
  destruct (pc s) eqn:Hpc;
    try (by apply not_elem_of_nil in Hin);
    try (by apply list_elem_of_singleton in Hin);
    try (by apply elem_of_hook_part in Hin as [_ [?|?]]);
    try (by apply elem_of_upto_loop in Hin as [?|[?|[?|(? & _ & [?|?])]]]);
    try (apply elem_of_app in Hin as [Hin|Hin];
         [ by apply elem_of_upto_loop in Hin as [?|[?|[?|(? & _ & [?|?])]]]
         | set_solver ]).
  destruct (wait_task s) eqn:Hw.
  - apply elem_of_app in Hin as [Hin|Hin];
      [ by apply elem_of_upto_loop in Hin as [?|[?|[?|(? & _ & [?|?])]]]
      | set_solver ].
  - destruct Hs as [Hp|((Hsome & _) & _)]; [|rewrite Hw in Hsome; by destruct Hsome].
    destruct res; [|set_solver].
    split; [|done]. f_equal. set_solver.
Qed.

(** In a pristine state only [Run] itself has left events. *)
Lemma pristine_quiet b s e g :
  pristine s -> Hist b s -> e ∈ trace s -> owner e = Some g ->
  g = GMain /\ e ∈ main_history b s.
Proof.
  intros (Hw & Hst & Ho & _ & Hiv & _) H Hin Hown.
  apply (elem_of_proj _ g) in Hin; [|done].
  destruct g.
  - by rewrite (h_main _ _ H) in Hin.
  - rewrite (h_wait _ _ H), Hw in Hin. by apply not_elem_of_nil in Hin.
  - rewrite (h_start _ _ H), Hst in Hin. by apply not_elem_of_nil in Hin.
  - rewrite (h_onrun _ _ H), Ho in Hin. by apply not_elem_of_nil in Hin.
  - rewrite (h_callback _ _ H), Hiv in Hin. by apply not_elem_of_nil in Hin.
Qed.

(** C2: when the pre-start hook returns an error, [Run] returns that very
    error, unwrapped; no [Run] or [Stop] of a runner is called, no shutdown
    callback is registered and no task is spawned. *)
Theorem Run_before_hook_fails b logger f e sched :
  runners b <> [] ->
  beforeRun b = Some f ->
  EvRet GMain CBeforeRun (Some e) ∈ trace (Run b logger sched) ->
  result (Run b logger sched) = Some (Some e) /\
  (forall g i, EvCall g (CRun i) ∉ trace (Run b logger sched)) /\
  (forall g i, EvCall g (CStop i) ∉ trace (Run b logger sched)) /\
  (forall i, EvRegister i ∉ trace (Run b logger sched)) /\
  (forall g, EvSpawn g ∉ trace (Run b logger sched)) /\
  callbacks (Run b logger sched) = [] /\
  result (Run b logger [AStep GMain; AStep GMain; AReturn GMain (Some e)]) = Some (Some e).
Proof.
  intros Hr Hb Hin.
  pose proof (Inv_Run b logger sched) as HI.
  pose proof (Hist_Run b logger sched) as H.
  destruct (hook_failed _ _ _ HI H Hin) as [Hpc Hp].
  assert (forall ev g, ev ∈ trace (Run b logger sched) -> owner ev = Some g ->
            ev = EvCall GMain CBeforeRun \/ ev = EvRet GMain CBeforeRun (Some e) \/
            ev = EvReturn (Some e)) as Hev.
  { intros ev g Hev Hown. destruct (pristine_quiet _ _ _ _ Hp H Hev Hown) as [_ Hm].
    unfold main_history in Hm. rewrite Hpc in Hm.
    rewrite (proj1 Hp) in Hm. set_solver. }
  unfold result. rewrite Hpc. repeat split.
  - intros g i Hc. by destruct (Hev _ g Hc) as [?|[?|?]].
  - intros g i Hc. by destruct (Hev _ g Hc) as [?|[?|?]].
  - intros i Hc. by destruct (Hev _ GMain Hc) as [?|[?|?]].
  - intros g Hc. by destruct (Hev _ GMain Hc) as [?|[?|?]].
  - apply Hp.
  - unfold Run. simpl. unfold step at 3. simpl. unfold step_main at 1. simpl.
    destruct (runners b); [done|].
    unfold step at 2. simpl. unfold step_main. simpl. rewrite Hb.
    done.
Qed.

Lemma Run_before_hook_fails_witness :
  result (Run (New [WithRunners [mkRunner "db"]; WithBeforeRun (Some (Hook "migrate"))])
            (mkLogger (fun _ => true))
            [AStep GMain; ACancel; AStep GMain; AReturn GMain (Some (Opaque "test"));
             AStep GMain; AStep (GStart 0); AInvoke 0 "signal"]) =
  Some (Some (Opaque "test")).
Proof.
  apply (Run_before_hook_fails
           (New [WithRunners [mkRunner "db"]; WithBeforeRun (Some (Hook "migrate"))])
           (mkLogger (fun _ => true)) (Hook "migrate") (Opaque "test")).
  - done.
  - reflexivity.
  - vm_compute. apply list_elem_of_In. simpl. tauto.
Defined.

(** ** Ordering of events *)

Lemma step_emits b logger a s :
  exists evs, trace (step b logger a s) = trace s ++ evs /\ Forall (emitted_at s) evs.
Proof.
  unfold step, step_main, return_main, step_wait, return_wait, step_start,
    return_start, step_onrun, return_onrun, invoke, step_callback,
    return_callback, log_info, Log, eg_done.
  repeat case_match; simpl;
    first [ exists []; split; [by rewrite app_nil_r | constructor]
          | eexists; split; [reflexivity | repeat constructor; by simpl]
          | eexists; split; [symmetry; apply app_assoc | repeat constructor; by simpl] ].
Qed.

Lemma precedes_app e1 e2 t evs :
  precedes e1 e2 t -> (e2 ∈ evs -> e1 ∈ t) -> precedes e1 e2 (t ++ evs).
Proof.
  intros Hp Hnew t1 t2 Heq.
  apply app_eq_app in Heq as [l [[-> Heq]|[-> Heq]]].
  - destruct l as [|x l]; simpl in Heq.
    + rewrite app_nil_r in *. apply Hnew. rewrite <- Heq. by left.
    + simplify_eq. by eapply Hp.
  - apply elem_of_app. left. apply Hnew. rewrite Heq.
    apply elem_of_app. right. by left.
Qed.

(** [e1] precedes [e2] in every trace when [e1] is in the trace whenever a
    statement appends [e2]. *)
Lemma precedes_Run b logger e1 e2 :
  (forall s, Inv b s -> Hist b s -> emitted_at s e2 -> e1 ∈ trace s) ->
  forall sched, precedes e1 e2 (trace (Run b logger sched)).
Proof.
  intros Hstep sched. induction sched as [|a sched IH] using rev_ind.
  - intros t1 t2 Heq. by destruct t1.
  - rewrite Run_snoc.
    destruct (step_emits b logger a (Run b logger sched)) as (evs & -> & Hall).
    apply precedes_app; [done|]. intros Hin.
    apply Hstep; [apply Inv_Run | apply Hist_Run |].
    by eapply (proj1 (Forall_forall _ _) Hall).
Qed.

Lemma occurrences_proj e g t :
  owner e = Some g -> occurrences e t = occurrences e (proj g t).
Proof.
  intros Ho. unfold occurrences. induction t as [|x t IH]; [done|]. simpl.
  case_bool_decide as Hx.
  - subst x. unfold owned. rewrite Ho, gid_eqb_refl. simpl.
    rewrite bool_decide_eq_true_2 by done. by rewrite IH.
  - destruct (owned g x); simpl; [|done].
    rewrite bool_decide_eq_false_2 by done. done.
Qed.

Lemma main_elem_of b s e :
  Hist b s -> e ∈ main_history b s -> e ∈ trace s.
Proof. intros H Hin. rewrite <- (h_main _ _ H) in Hin. by eapply proj_elem_of. Qed.

Lemma start_elem_of b s i p e :
  Hist b s -> start_tasks s !! i = Some p -> e ∈ start_history i p -> e ∈ trace s.
Proof.
  intros H Hi Hin. apply (proj_elem_of _ (GStart i)).
  by rewrite (h_start _ _ H), Hi.
Qed.

(** Past the barrier every runner has a start task that has signalled. *)
Lemma barrier_passed b s i :
  Inv b s -> Hist b s -> pc s = MGoOnRun -> i < length (runners b) ->
  EvSignal i ∈ trace s.
Proof.
  intros [Hs [Hw _] _ _] H Hpc Hi. unfold shape in Hs. rewrite Hpc in *.
  destruct Hs as ((_ & Hlen & _) & _ & Hz).
  destruct (lookup_lt_is_Some_2 (start_tasks s) i) as [p Hp]; [lia|].
  eapply start_elem_of; [done..|].
  assert (unsignalled p = false) as Hu.
  { eapply count_zero_lookup; [|done]. lia. }
  destruct p; try done; by left.
Qed.

(** Once the post-start task is spawned, the loop is over, the barrier is
    open and the post-start task exists. *)
Lemma spawned_onrun b s :
  Inv b s -> Hist b s -> EvSpawn GOnRun ∈ trace s ->
  looped (length (runners b)) s /\ waitStart s = 0 /\ is_Some (onrun_task s) /\
  (pc s = MEgWait \/ exists res, pc s = MReturned res).
Proof.
  intros [Hs _ _ _] H Hin. apply (elem_of_proj _ GMain) in Hin; [|done].
  rewrite (h_main _ _ H) in Hin. unfold main_history, shape in *.
  destruct (pc s) eqn:Hpc;
    try (by apply not_elem_of_nil in Hin);
    try (by apply list_elem_of_singleton in Hin);
    try (by apply elem_of_hook_part in Hin as [_ [?|?]]);
    try (by apply elem_of_upto_loop in Hin as [?|[?|[?|(? & _ & [?|?])]]]);
    try (by apply elem_of_app in Hin as [Hin|Hin];
         [ apply elem_of_upto_loop in Hin as [?|[?|[?|(? & _ & [?|?])]]]
         | set_solver ]).
  destruct (wait_task s) eqn:Hw.
  - destruct Hs as [(? & _)|(? & ? & ? & _)]; [congruence|]. eauto 10.
  - destruct res; set_solver.
Qed.

Lemma signalled_once b s i p :
  Hist b s -> start_tasks s !! i = Some p -> unsignalled p = false ->
  occurrences (EvSignal i) (trace s) = 1.
Proof.
  intros H Hi Hu. rewrite (occurrences_proj _ (GStart i)) by done.
  rewrite (h_start _ _ H), Hi. unfold occurrences.
  destruct p; try done; simpl; rewrite ?bool_decide_eq_true_2 by done; done.
Qed.

(** C3: in every execution of [Run], the pre-start hook (if there is one)
    has returned before any start task is spawned; the shutdown callback of
    a runner is registered before its start task is spawned; a start task
    signals the barrier once, before it calls [Run] of its runner; and every
    runner's signal, and the barrier itself, come before the post-start task
    is spawned. *)
Theorem Run_ordering b logger sched :
  (forall i, is_Some (beforeRun b) ->
     precedes (EvRet GMain CBeforeRun None) (EvSpawn (GStart i))
       (trace (Run b logger sched))) /\
  (forall i, precedes (EvRegister i) (EvSpawn (GStart i)) (trace (Run b logger sched))) /\
  (forall i, precedes (EvSignal i) (EvCall (GStart i) (CRun i))
               (trace (Run b logger sched)) /\
             occurrences (EvSignal i) (trace (Run b logger sched)) <= 1) /\
  (forall i, i < length (runners b) ->
     precedes (EvSignal i) (EvSpawn GOnRun) (trace (Run b logger sched))) /\
  precedes EvBarrier (EvSpawn GOnRun) (trace (Run b logger sched)) /\
  (EvSpawn GOnRun ∈ trace (Run b logger sched) ->
   forall i, i < length (runners b) ->
     occurrences (EvSignal i) (trace (Run b logger sched)) = 1).
Proof.
  repeat split.
  - intros i [f Hf]. apply precedes_Run. intros s _ H Hpc. simpl in Hpc.
    apply (main_elem_of b); [done|]. unfold main_history. rewrite Hpc.
    unfold upto_loop, hook_part. rewrite Hf. set_solver.
  - intros i. apply precedes_Run. intros s _ H Hpc. simpl in Hpc.
    apply (main_elem_of b); [done|]. unfold main_history. rewrite Hpc. set_solver.
  - apply precedes_Run. intros s _ H Hp. simpl in Hp.
    eapply start_elem_of; [done..|]. by left.
  - rewrite (occurrences_proj _ (GStart i)) by done.
    rewrite (h_start _ _ (Hist_Run b logger sched)).
    unfold occurrences.
    destruct (start_tasks (Run b logger sched) !! i) as [p|]; [|simpl; lia].
    destruct p; simpl; rewrite ?bool_decide_eq_true_2 by done; simpl; lia.
  - intros i Hi. apply precedes_Run. intros s HI H Hpc. simpl in Hpc.
    by apply (barrier_passed b).
  - apply precedes_Run. intros s _ H Hpc. simpl in Hpc.
    apply (main_elem_of b); [done|]. unfold main_history. rewrite Hpc. set_solver.
  - intros Hin i Hi.
    pose proof (Inv_Run b logger sched) as HI.
    pose proof (Hist_Run b logger sched) as H.
    destruct (spawned_onrun _ _ HI H Hin) as ((_ & Hlen & _) & Hz & _ & Hpc).
    destruct (lookup_lt_is_Some_2 (start_tasks (Run b logger sched)) i) as [p Hp]; [lia|].
    eapply signalled_once; [done..|].
    eapply count_zero_lookup; [|done].
    destruct HI as [_ [Hw _] _ _]. rewrite Hz in Hw.
    destruct Hpc as [Hpc|[res Hpc]]; rewrite Hpc in Hw; lia.
Qed.

Lemma Run_ordering_witness :
  precedes (EvRet GMain CBeforeRun None) (EvSpawn (GStart 0))
    (trace (Run (New [WithRunners [mkRunner "db"]; WithBeforeRun (Some (Hook "migrate"))])
              (mkLogger (fun _ => true))
              [AStep GMain; AStep GMain; AReturn GMain None; AStep GMain; AStep GMain;
               AStep GMain; AStep GMain; AStep (GStart 0); AStep (GStart 0);
               AStep GMain; AStep GMain; AStep GMain; AStep GMain])).
Proof.
  apply (proj1 (Run_ordering _ _ _) 0). by eexists.
Defined.

(** ** The result of [Run] *)






Lemma Is_WithMessage c msg :
  errors.Is (WithMessage c msg) Canceled = errors.Is c Canceled.
Proof. done. Qed.

Lemma finish_wraps e :
  errors.Is e Canceled = false ->
  finish (Some e) = Some (WithMessage e "bootstrap run err").
Proof. intros H. unfold finish. by rewrite H. Qed.

Lemma finish_cancelled e : errors.Is e Canceled = true -> finish (Some e) = None.
Proof. intros H. unfold finish. by rewrite H. Qed.


(** Once tasks were spawned, what [Run] returns is decided by the first
    error of the group. *)
Lemma Run_result_tasks b s res :
  Inv b s -> Hist b s -> pc s = MReturned res -> EvSpawn GWait ∈ trace s ->
  res = finish (first_error (trace s)).
Proof.
  intros [Hs _ _ _] H Hpc Hin. unfold shape in Hs. rewrite Hpc in Hs.
  destruct Hs as [Hp|(_ & _ & _ & _ & ->)]; [|by rewrite (h_err _ _ H)].
  apply (elem_of_proj _ GMain) in Hin; [|done].
  rewrite (h_main _ _ H) in Hin. unfold main_history in Hin.
  rewrite Hpc, (proj1 Hp) in Hin. destruct res; set_solver.
Qed.

Lemma first_error_cancelled t :
  (forall g e, in_group g = true -> EvExit g (Some e) ∈ t -> errors.Is e Canceled = true) ->
  finish (first_error t) = None.
Proof.
  induction t as [|x t IH]; intros Hall; [done|].
  assert (finish (first_error t) = None) as Ht.
  { apply IH. intros g e Hg Hin. apply (Hall g e Hg). by right. }
  destruct x; simpl; try done. destruct res as [e|]; [|done].
  destruct (in_group g) eqn:Hg; [|done].
  apply finish_cancelled, (Hall g e Hg). by left.
Qed.




Lemma callback_returned b s k i rn r res :
  Hist b s -> runners b !! i = Some rn ->
  EvRet (GCallback k) (CStop i) r ∈ trace s -> EvExit (GCallback k) res ∈ trace s ->
  res = errors.WithMessagef r (stopping rn).
Proof.
  intros H Hr Hret Hexit.
  apply (elem_of_proj _ (GCallback k)) in Hret; [|done].
  apply (elem_of_proj _ (GCallback k)) in Hexit; [|done].
  rewrite (h_callback _ _ H) in Hret, Hexit.
  destruct (invocations s !! k) as [[[j reason] p]|] eqn:Hp;
    [|by apply not_elem_of_nil in Hret].
  assert (j = i) as ->.
  { destruct p; simpl in *; set_solver. }
  pose proof (h_stopping _ _ H k i reason p rn Hp Hr) as Hw.
  destruct p; simpl in *; set_solver.
Qed.

(** ** [Run] returns *)

Lemma tasks_at_call b logger sched :
  at_call (wait_task (Run b logger sched)) /\ at_call (onrun_task (Run b logger sched)).
Proof.
  apply (Run_invariant b logger (fun s => at_call (wait_task s) /\ at_call (onrun_task s))).
  - by repeat split.
  - intros a s [[? ?] [? ?]].
    unfold step, step_main, return_main, step_wait, return_wait, step_start,
      return_start, step_onrun, return_onrun, invoke, step_callback,
      return_callback, log_info, Log, eg_done, at_call.
    repeat case_match; simpl; repeat split; congruence.
Qed.

Lemma never_crashed b logger sched :
  is_Some (gs b) -> crashed (Run b logger sched) = false.
Proof.
  intros [c Hc]. destruct (crashed _) eqn:Hcr; [|done].
  apply (inv_crashed _ _ (Inv_Run b logger sched)) in Hcr. congruence.
Qed.

Lemma weight_sum_app l1 l2 : weight_sum (l1 ++ l2) = weight_sum l1 + weight_sum l2.
Proof. induction l1 as [|p l1 IH]; simpl; [done | rewrite IH; lia]. Qed.

Lemma weight_sum_insert (l : list task_pc) i p q :
  l !! i = Some p ->
  weight_sum (<[i := q]> l) + task_weight p = weight_sum l + task_weight q.
Proof.
  revert i. induction l as [|z l IH]; intros [|i] H; simplify_eq/=.
  - lia.
  - specialize (IH _ H). lia.
Qed.

Lemma remaining_log_info b logger msg s :
  remaining b (log_info logger msg s) = remaining b s.
Proof. unfold log_info. by destruct (Enabled logger InfoLevel). Qed.

Lemma remaining_eg_done b res s : remaining b (eg_done res s) = remaining b s.
Proof. unfold eg_done. by destruct res, (eg_err s). Qed.

Lemma remaining_emit b evs s : remaining b (emit evs s) = remaining b s.
Proof. done. Qed.

(** A start task that has not returned can take a step. *)
Lemma start_task_progress b logger s i p rn :
  crashed s = false -> start_tasks s !! i = Some p -> runners b !! i = Some rn ->
  live p = true ->
  exists a, remaining b (step b logger a s) < remaining b s.
Proof.
  intros Hc Hi Hr Hl.
  destruct p; try done.
  1-3,5: exists (AStep (GStart i)); unfold step, step_start; rewrite Hc, Hi, Hr;
    rewrite ?remaining_log_info, ?remaining_emit, ?remaining_eg_done;
    unfold remaining; simpl;
    match goal with |- context [<[_ := ?q]> _] =>
      pose proof (weight_sum_insert _ _ _ q Hi) as Hw end; simpl in Hw; lia.
  exists (AReturn (GStart i) None). unfold step, return_start. rewrite Hc, Hi.
  unfold remaining. simpl.
  match goal with |- context [<[_ := ?q]> _] =>
    pose proof (weight_sum_insert _ _ _ q Hi) as Hw end. simpl in Hw. lia.
Qed.

Lemma wait_task_progress b logger s p :
  crashed s = false -> is_Some (gs b) -> wait_task s = Some p ->
  at_call (wait_task s) -> live p = true ->
  exists a, remaining b (step b logger a s) < remaining b s.
Proof.
  intros Hc [c Hgs] Hp [H1 H2] Hl.
  destruct p; try done; try congruence.
  - exists (AStep GWait). unfold step, step_wait. rewrite Hc, Hp, Hgs.
    unfold remaining. rewrite Hp. simpl. lia.
  - exists (AReturn GWait None). unfold step, return_wait. rewrite Hc, Hp.
    unfold remaining. rewrite Hp. simpl. lia.
  - exists (AStep GWait). unfold step, step_wait. rewrite Hc, Hp.
    rewrite remaining_emit, remaining_eg_done.
    unfold remaining. rewrite Hp. simpl. lia.
Qed.

Lemma onrun_task_progress b logger s p :
  crashed s = false -> onrun_task s = Some p ->
  at_call (onrun_task s) -> live p = true ->
  exists a, remaining b (step b logger a s) < remaining b s.
Proof.
  intros Hc Hp [H1 H2] Hl.
  destruct p; try done; try congruence.
  - exists (AStep GOnRun). unfold step, step_onrun. rewrite Hc, Hp.
    destruct (onRun b); rewrite ?remaining_emit, ?remaining_eg_done;
      unfold remaining; rewrite Hp; simpl; lia.
  - exists (AReturn GOnRun None). unfold step, return_onrun. rewrite Hc, Hp.
    unfold remaining. rewrite Hp. simpl. lia.
  - exists (AStep GOnRun). unfold step, step_onrun. rewrite Hc, Hp.
    rewrite remaining_emit, remaining_eg_done.
    unfold remaining. rewrite Hp. simpl. lia.
Qed.

(** As long as [Run] has not returned, [Run] or one of its tasks can take a
    step (with the call it is inside returning, if it is inside one). *)
Lemma progress b logger sched :
  is_Some (gs b) ->
  result (Run b logger sched) = None ->
  exists a, remaining b (Run b logger (sched ++ [a])) < remaining b (Run b logger sched).
Proof.
  intros Hgs Hres.
  pose proof (never_crashed b logger sched Hgs) as Hc.
  pose proof (tasks_at_call b logger sched) as [Hwc Hoc].
  destruct (Inv_Run b logger sched) as [Hs [Hw Hg] _ _].
  cut (exists a, remaining b (step b logger a (Run b logger sched)) <
                 remaining b (Run b logger sched)).
  { intros [a Ha]. exists a. by rewrite Run_snoc. }
  set (s := Run b logger sched) in *. clearbody s.
  unfold result, shape in *.
  destruct (pc s) eqn:Hpc; try done.
  - exists (AStep GMain). unfold step, step_main. rewrite Hc, Hpc.
    destruct (runners b); unfold remaining; simpl; rewrite ?Hpc; simpl; lia.
  - exists (AStep GMain). unfold step, step_main. rewrite Hc, Hpc.
    destruct (beforeRun b); unfold remaining; simpl; rewrite ?Hpc; simpl; lia.
  - exists (AReturn GMain None). unfold step, return_main. rewrite Hc, Hpc.
    unfold remaining; simpl; rewrite ?Hpc; simpl; lia.
  - exists (AStep GMain). unfold step, step_main. rewrite Hc, Hpc.
    destruct Hs as (Hwt & _ & Hot & _).
    unfold remaining; simpl; rewrite ?Hpc, ?Hwt; simpl; lia.
  - exists (AStep GMain). unfold step, step_main. rewrite Hc, Hpc.
    destruct Hgs as [c Hgs]. rewrite Hgs.
    destruct (runners b !! i) eqn:Hr.
    + apply lookup_lt_Some in Hr. unfold remaining; simpl; rewrite ?Hpc; simpl; lia.
    + unfold remaining; simpl; rewrite ?Hpc; simpl; lia.
  - exists (AStep GMain). unfold step, step_main. rewrite Hc, Hpc.
    unfold remaining; simpl; rewrite ?Hpc; simpl; lia.
  - exists (AStep GMain). unfold step, step_main. rewrite Hc, Hpc.
    destruct Hs as (_ & _ & _ & _ & Hlt).
    unfold remaining; simpl; rewrite ?Hpc, ?weight_sum_app; simpl; lia.
  - destruct (Nat.eqb_spec (waitStart s) 0) as [Hz|Hnz].
    + exists (AStep GMain). unfold step, step_main. rewrite Hc, Hpc, Hz.
      unfold remaining; simpl; rewrite ?Hpc; simpl; lia.
    + destruct (count_pos_lookup unsignalled (start_tasks s)) as (i & p & Hi & Hu); [lia|].
      destruct Hs as ((_ & Hlen & _) & _).
      destruct (lookup_lt_is_Some_2 (runners b) i) as [rn Hr].
      { rewrite <- Hlen. by eapply lookup_lt_Some. }
      eapply start_task_progress; [done..|]. by destruct p.
  - exists (AStep GMain). unfold step, step_main. rewrite Hc, Hpc.
    rewrite remaining_log_info.
    unfold remaining; simpl; rewrite ?Hpc; simpl; lia.
  - exists (AStep GMain). unfold step, step_main. rewrite Hc, Hpc.
    destruct Hs as (_ & Hot & _).
    unfold remaining; simpl; rewrite ?Hpc, ?Hot; simpl; lia.
  - destruct (Nat.eqb_spec (eg_wg s) 0) as [Hz|Hnz].
    + exists (AStep GMain). unfold step, step_main. rewrite Hc, Hpc, Hz.
      unfold remaining; simpl; rewrite ?Hpc; simpl; lia.
    + destruct (wait_task s) as [pw|] eqn:Hpw; [destruct (live pw) eqn:Hlw|].
      { eapply wait_task_progress; [done | done | exact Hpw | by rewrite Hpw | done]. }
      all: destruct (onrun_task s) as [po|] eqn:Hpo; [destruct (live po) eqn:Hlo|];
        try (by eapply onrun_task_progress; [done | exact Hpo | by rewrite Hpo | done]).
      all: simpl in Hg; rewrite ?Hlw, ?Hlo in Hg;
        destruct (count_pos_lookup live (start_tasks s)) as (i & p & Hi & Hu); [lia|];
        destruct Hs as ((_ & Hlen & _) & _);
        destruct (lookup_lt_is_Some_2 (runners b) i) as [rn Hr];
          [rewrite <- Hlen; by eapply lookup_lt_Some|];
        by eapply start_task_progress.
Qed.

(** Every execution of [Run] with a shutdown controller can be continued to
    one in which [Run] has returned: the barrier and the errgroup never
    block for good. *)
Lemma Run_can_return b logger sched :
  is_Some (gs b) ->
  exists sched', is_Some (result (Run b logger (sched ++ sched'))).
Proof.
  intros Hgs.
  remember (remaining b (Run b logger sched)) as n eqn:Hn.
  revert sched Hn. induction (lt_wf n) as [n _ IH]. intros sched ->.
  destruct (result (Run b logger sched)) as [res|] eqn:Hres.
  - exists []. rewrite app_nil_r, Hres. by eexists.
  - destruct (progress b logger sched Hgs Hres) as [a Ha].
    destruct (IH _ Ha (sched ++ [a]) eq_refl) as [sched' Hs].
    exists (a :: sched'). by rewrite <- app_assoc in Hs.
Qed.

Lemma Run_trace_extends b logger sched sched' :
  exists evs, trace (Run b logger (sched ++ sched')) = trace (Run b logger sched) ++ evs.
Proof.
  induction sched' as [|a sched' IH] using rev_ind.
  - exists []. by rewrite !app_nil_r.
  - destruct IH as [evs IH]. rewrite app_assoc, Run_snoc.
    destruct (step_emits b logger a (Run b logger (sched ++ sched'))) as (evs' & -> & _).
    exists (evs ++ evs'). by rewrite IH, app_assoc.
Qed.


Lemma elem_of_trace_extends b logger sched sched' e :
  e ∈ trace (Run b logger sched) -> e ∈ trace (Run b logger (sched ++ sched')).
Proof.
  intros He. destruct (Run_trace_extends b logger sched sched') as [evs ->].
  apply elem_of_app. by left.
Qed.

(** ** What a returned [Run] has done *)

Lemma first_error_in t e :
  first_error t = Some e -> exists g, in_group g = true /\ EvExit g (Some e) ∈ t.
Proof.
  induction t as [|x t IH]; [done|]. intros H.
  assert (first_error t = Some e -> exists g, in_group g = true /\ EvExit g (Some e) ∈ x :: t)
    as Hrec.
  { intros Ht. destruct (IH Ht) as (g & ? & ?). exists g. split; [done | by right]. }
  destruct x; simpl in H; auto.
  destruct res as [e'|]; auto.
  destruct (in_group g) eqn:Hg; auto.
  simplify_eq. exists g. split; [done | by left].
Qed.

(** The tasks have left events only if [Run] got past its early returns. *)
Lemma not_pristine b s e g :
  Hist b s -> e ∈ trace s -> owner e = Some g -> g <> GMain -> ~ pristine s.
Proof.
  intros H Hin Hown Hg Hp. by destruct (pristine_quiet _ _ _ _ Hp H Hin Hown).
Qed.

Lemma returned_after_tasks b s res :
  Inv b s -> pc s = MReturned res -> ~ pristine s ->
  looped (length (runners b)) s /\ is_Some (onrun_task s) /\ eg_wg s = 0 /\
  res = finish (eg_err s).
Proof.
  intros [Hs _ _ _] Hpc Hnp. unfold shape in Hs. rewrite Hpc in Hs.
  destruct Hs as [?|(? & ? & _ & ? & ?)]; done.
Qed.

Lemma Run_result_first_error b s res e :
  Inv b s -> Hist b s -> pc s = MReturned res -> first_error (trace s) = Some e ->
  res = finish (Some e).
Proof.
  intros HI H Hpc He.
  destruct (first_error_in _ _ He) as (g & Hg & Hin).
  destruct (returned_after_tasks b s res HI Hpc) as (_ & _ & _ & ->).
  { eapply not_pristine; [done..|]. by intros ->. }
  by rewrite (h_err _ _ H), He.
Qed.






(** ** The aggregated error *)

(** C1, as the code has it: when [Run] returns after its tasks, the error
    of the group is the first non-nil result of a task; [Run] returns nil
    when that error is [context.Canceled] or has it anywhere in its chain of
    causes, and returns it with ["bootstrap run err"] in front otherwise.
    When every task returned nil or such a cancellation, [Run] returns nil.
    And [Run] does return: every execution can be continued to its return. *)
Theorem Run_aggregate_error b logger sched :
  eg_err (Run b logger sched) = first_error (trace (Run b logger sched)) /\
  (forall res e,
     result (Run b logger sched) = Some res ->
     first_error (trace (Run b logger sched)) = Some e ->
     (errors.Is e Canceled = false -> res = Some (WithMessage e "bootstrap run err")) /\
     (errors.Is e Canceled = true -> res = None)) /\
  (forall res,
     result (Run b logger sched) = Some res ->
     EvSpawn GWait ∈ trace (Run b logger sched) ->
     (forall g e, in_group g = true -> EvExit g (Some e) ∈ trace (Run b logger sched) ->
                  errors.Is e Canceled = true) ->
     res = None) /\
  (is_Some (gs b) -> exists sched', is_Some (result (Run b logger (sched ++ sched')))).
Proof.
  pose proof (Inv_Run b logger sched) as HI.
  pose proof (Hist_Run b logger sched) as H.
  split; [apply (h_err _ _ H)|]. split; [|split].
  - intros res e Hres He. unfold result in Hres.
    destruct (pc (Run b logger sched)) eqn:Hpc; simplify_eq.
    rewrite (Run_result_first_error _ _ _ _ HI H Hpc He).
    split; intros Hc; [by apply finish_wraps | by apply finish_cancelled].
  - intros res Hres Hspawn Hall. unfold result in Hres.
    destruct (pc (Run b logger sched)) eqn:Hpc; simplify_eq.
    rewrite (Run_result_tasks _ _ _ HI H Hpc Hspawn).
    by apply first_error_cancelled.
  - apply Run_can_return.
Qed.


Lemma Run_aggregate_error_witness :
  first_error (trace (Run two_runners verbose both_fail)) =
    Some (WithMessage (Opaque "db down") "starting db failed") /\
  errors.Is (WithMessage (Opaque "db down") "starting db failed") Canceled = false /\
  result (Run two_runners verbose both_fail) =
    Some (Some (WithMessage (WithMessage (Opaque "db down") "starting db failed")
                  "bootstrap run err")).
Proof.
  assert (first_error (trace (Run two_runners verbose both_fail)) =
          Some (WithMessage (Opaque "db down") "starting db failed")) as Hfe
    by (vm_compute; reflexivity).
  split; [exact Hfe|]. split; [vm_compute; reflexivity|].
  destruct (result (Run two_runners verbose both_fail)) as [res|] eqn:Hr;
    [|vm_compute in Hr; discriminate].
  f_equal.
  apply (proj1 (proj1 (proj2 (Run_aggregate_error two_runners verbose both_fail))
                  res _ Hr Hfe)).
  vm_compute; reflexivity.
Defined.

(** C1 as stated fails: a runner whose [Run] returns [context.Canceled]
    while nothing is cancelled makes the error of the group a start failure,
    and [Run] returns nil instead of that error with ["bootstrap run err"]. *)
Lemma Run_swallows_wrapped_cancellation :
  egCtx_done (Run one_runner verbose runner_gives_up) = false /\
  occurrences EvCancel
    (trace (Run one_runner verbose (runner_gives_up ++ runner_gives_up_end))) = 0 /\
  eg_err (Run one_runner verbose (runner_gives_up ++ runner_gives_up_end)) =
    Some (WithMessage Canceled "starting db failed") /\
  result (Run one_runner verbose (runner_gives_up ++ runner_gives_up_end)) = Some None /\
  result (Run one_runner verbose (runner_gives_up ++ runner_gives_up_end)) <>
    Some (Some (WithMessage (WithMessage Canceled "starting db failed")
                  "bootstrap run err")).
Proof.
  repeat split; try (vm_compute; reflexivity).
  vm_compute. discriminate.
Qed.

(** ** Failures of runners and of the post-start hook *)









(** ** Failures of [Stop] *)

(** C5: when [Stop] of a runner returns an error inside its shutdown
    callback, the callback returns that error with ["stopping <name>
    failed"] in front, to the controller that invoked it (the controller of
    [New] has the error handler that logs it).  The error of the group, and
    with it what [Run] returns, never comes from a callback: it is the first
    error of a task, and when every task returned nil or a cancellation,
    [Run] returns nil whatever [Stop] returned. *)
Theorem Run_stop_failure b logger sched :
  (forall k i rn e res,
     runners b !! i = Some rn ->
     EvRet (GCallback k) (CStop i) (Some e) ∈ trace (Run b logger sched) ->
     EvExit (GCallback k) res ∈ trace (Run b logger sched) ->
     res = Some (WithMessage e (stopping rn))) /\
  (forall k i reason rn e,
     is_Some (gs b) -> runners b !! i = Some rn ->
     invocations (Run b logger sched) !! k = Some (i, reason, TAfter (Some e)) ->
     EvExit (GCallback k) (Some (WithMessage e (stopping rn))) ∈
       trace (Run b logger (sched ++ [AStep (GCallback k)]))) /\
  (forall e, eg_err (Run b logger sched) = Some e ->
     exists g, in_group g = true /\ EvExit g (Some e) ∈ trace (Run b logger sched)) /\
  (forall res,
     result (Run b logger sched) = Some res ->
     EvSpawn GWait ∈ trace (Run b logger sched) ->
     (forall g e, in_group g = true -> EvExit g (Some e) ∈ trace (Run b logger sched) ->
                  errors.Is e Canceled = true) ->
     res = None) /\
  In (WithErrorHandler (LogError "error when shutting down"))
     (controller_options defaultController).
Proof.
  pose proof (Inv_Run b logger sched) as HI.
  pose proof (Hist_Run b logger sched) as H.
  split; [|split; [|split; [|split]]].
  - intros k i rn e res Hr Hret Hexit.
    by rewrite (callback_returned b _ k i rn (Some e) res H Hr Hret Hexit).
  - intros k i reason rn e Hgs Hr Hk. rewrite Run_snoc.
    unfold step, step_callback. rewrite (never_crashed b logger sched Hgs), Hk, Hr.
    simpl. apply elem_of_app. right. by left.
  - intros e He. apply first_error_in. by rewrite <- (h_err _ _ H).
  - intros res Hres Hspawn Hall. unfold result in Hres.
    destruct (pc (Run b logger sched)) eqn:Hpc; simplify_eq.
    rewrite (Run_result_tasks _ _ _ HI H Hpc Hspawn).
    by apply first_error_cancelled.
  - simpl. tauto.
Qed.


Lemma clean_exits t :
  forallb clean_exit t = true ->
  forall g e, in_group g = true -> EvExit g (Some e) ∈ t -> errors.Is e Canceled = true.
Proof.
  intros Hall g e Hg Hin. rewrite forallb_forall in Hall.
  apply list_elem_of_In, Hall in Hin. simpl in Hin. by rewrite Hg in Hin.
Qed.

Lemma Run_stop_failure_witness :
  EvExit (GCallback 0) (Some (WithMessage (Opaque "test") "stopping db failed")) ∈
    trace (Run one_runner verbose stop_fails) /\
  result (Run one_runner verbose stop_fails) = Some None.
Proof.
  assert (EvSpawn GWait ∈ trace (Run one_runner verbose stop_fails)) as Hspawn.
  { apply list_elem_of_In. vm_compute. tauto. }
  split.
  - apply list_elem_of_In. vm_compute. tauto.
  - destruct (result (Run one_runner verbose stop_fails)) as [res|] eqn:Hr;
      [|vm_compute in Hr; discriminate].
    f_equal.
    apply (proj1 (proj2 (proj2 (proj2 (Run_stop_failure one_runner verbose stop_fails))))
             res Hr Hspawn).
    apply clean_exits. vm_compute. reflexivity.
Defined.

(** * More of the code *)

(** ** [New] and the configuration functions *)

Lemma fold_options cs b :
  fold_left (fun b opt => opt b) (map option_of cs) b =
  mkBootstrap (last_before cs (beforeRun b)) (last_onRun cs (onRun b))
    (runners b ++ all_runners cs) (last_shutdown cs (gs b)).
Proof.
  revert b. induction cs as [|c cs IH]; intros b; simpl.
  - rewrite app_nil_r. by destruct b.
  - rewrite IH. destruct c as [[g|]| | |]; simpl; try done.
    by rewrite <- app_assoc.
Qed.

(** What [New] builds from any sequence of calls of the four configuration
    functions: each hook is the argument of the last call that sets it (nil
    included), the controller is the argument of the last [WithShutdown]
    that is not nil, or the default one, and the runners are the arguments
    of all [WithRunners], in call order. *)
Theorem New_normal_form cs :
  New (map option_of cs) =
  mkBootstrap (last_before cs None) (last_onRun cs None) (all_runners cs)
    (last_shutdown cs (Some defaultController)).
Proof. unfold New. by rewrite fold_options. Qed.

(** ** The two wait groups *)

Lemma count_lookup_pos {A : Type} (f : A -> bool) (l : list A) i y :
  l !! i = Some y -> f y = true -> 0 < count f l.
Proof.
  revert i. induction l as [|z l IH]; intros [|i] H Hy; simplify_eq/=.
  - rewrite Hy. lia.
  - specialize (IH _ H Hy). lia.
Qed.

(** A [Done] on a wait group whose counter is zero panics in Go.  It never
    happens: when a start task is about to call [waitStart.Done()] the
    counter of [waitStart] is positive, and when the function of a task of
    the group is about to return the counter of the errgroup is positive. *)
Theorem wait_groups_never_underflow b logger sched :
  (forall i, start_tasks (Run b logger sched) !! i = Some TSignal ->
             0 < waitStart (Run b logger sched)) /\
  (forall i r, start_tasks (Run b logger sched) !! i = Some (TAfter r) ->
               0 < eg_wg (Run b logger sched)) /\
  (forall r, wait_task (Run b logger sched) = Some (TAfter r) ->
             0 < eg_wg (Run b logger sched)) /\
  (forall r, onrun_task (Run b logger sched) = Some (TAfter r) ->
             0 < eg_wg (Run b logger sched)) /\
  (onrun_task (Run b logger sched) = Some TCall -> 0 < eg_wg (Run b logger sched)).
Proof.
  destruct (Inv_Run b logger sched) as [_ [Hw Hg] _ _].
  repeat split.
  - intros i Hi. pose proof (count_lookup_pos unsignalled _ _ _ Hi eq_refl). lia.
  - intros i r Hi. pose proof (count_lookup_pos live _ _ _ Hi eq_refl). lia.
  - intros r Hr. rewrite Hr in Hg. simpl in Hg. lia.
  - intros r Hr. rewrite Hr in Hg. simpl in Hg. lia.
  - intros Hr. rewrite Hr in Hg. simpl in Hg. lia.
Qed.

Lemma wait_groups_never_underflow_witness :
  0 < waitStart (Run two_runners verbose (main_steps 9 ++ [AStep (GStart 1)])).
Proof.
  apply (proj1 (wait_groups_never_underflow two_runners verbose
                  (main_steps 9 ++ [AStep (GStart 1)])) 1).
  vm_compute. reflexivity.
Defined.

(** ** What [Run] waits for *)

Lemma live_opt_done o : is_Some o -> live_opt o = 0 -> exists r, o = Some (TDone r).
Proof. intros [p ->] H. destruct p; simpl in H; try lia. by eexists. Qed.

(** [Run] returns only when the function of every task it spawned has
    returned: the task of [gs.Wait], the start task of every runner and the
    post-start task. *)
Theorem Run_waits_for_its_tasks b logger sched res g :
  result (Run b logger sched) = Some res ->
  EvSpawn g ∈ trace (Run b logger sched) ->
  exists r, EvExit g r ∈ trace (Run b logger sched).
Proof.
  intros Hres Hin.
  pose proof (Inv_Run b logger sched) as HI.
  pose proof (Hist_Run b logger sched) as H.
  set (s := Run b logger sched) in *. clearbody s.
  unfold result in Hres. destruct (pc s) eqn:Hpc; simplify_eq.
  assert (~ pristine s) as Hnp.
  { intros Hp. destruct (pristine_quiet _ _ _ _ Hp H Hin eq_refl) as [_ Hm].
    unfold main_history in Hm. rewrite Hpc, (proj1 Hp) in Hm.
    destruct res; set_solver. }
  destruct (returned_after_tasks b s res HI Hpc Hnp) as ((Hwt & Hlen & _) & Hot & Hz & _).
  destruct HI as [_ [_ Hg] _ _]. rewrite Hz in Hg.
  apply (elem_of_proj _ GMain) in Hin; [|done].
  rewrite (h_main _ _ H) in Hin. unfold main_history in Hin. rewrite Hpc in Hin.
  destruct Hwt as [pw Hpw]. rewrite Hpw in Hin.
  assert (g = GWait \/ (exists j, j < length (runners b) /\ g = GStart j) \/ g = GOnRun)
    as [->|[(j & Hj & ->)| ->]].
  { apply elem_of_app in Hin as [Hin|Hin].
    - apply elem_of_upto_loop in Hin as [?|[?|[?|(j & ? & [?|?])]]]; simplify_eq; eauto.
    - set_solver. }
  - destruct (live_opt_done (wait_task s)) as [r Hr]; [by eexists | lia |].
    exists r. apply (proj_elem_of _ GWait). rewrite (h_wait _ _ H), Hr. set_solver.
  - destruct (lookup_lt_is_Some_2 (start_tasks s) j) as [p Hp]; [lia|].
    assert (live p = false) as Hl by (eapply count_zero_lookup; [|done]; lia).
    destruct p; try done. exists res0.
    eapply start_elem_of; [done..|]. set_solver.
  - destruct (live_opt_done (onrun_task s)) as [r Hr]; [done | lia |].
    exists r. apply (proj_elem_of _ GOnRun). rewrite (h_onrun _ _ H), Hr.
    simpl. destruct (onRun b); set_solver.
Qed.

Lemma Run_waits_for_its_tasks_witness :
  exists r, EvExit (GStart 1) r ∈ trace (Run two_runners verbose both_fail).
Proof.
  apply (Run_waits_for_its_tasks two_runners verbose both_fail
           (Some (WithMessage (WithMessage (Opaque "db down") "starting db failed")
                    "bootstrap run err"))).
  - vm_compute. reflexivity.
  - apply list_elem_of_In. vm_compute. tauto.
Defined.

(** ** The statements of [Run] itself *)

(** The runners are taken in the order of [b.runners]: the task of
    [gs.Wait] is spawned before any callback is registered, the callback
    and the start task of a runner come before those of every later runner,
    and the start task of a runner is spawned before the callback of the
    next one is registered. *)
Theorem runners_taken_in_order b logger sched i j :
  i < j ->
  precedes (EvSpawn GWait) (EvRegister i) (trace (Run b logger sched)) /\
  precedes (EvRegister i) (EvRegister j) (trace (Run b logger sched)) /\
  precedes (EvSpawn (GStart i)) (EvRegister j) (trace (Run b logger sched)) /\
  precedes (EvSpawn (GStart i)) (EvSpawn (GStart j)) (trace (Run b logger sched)).
Proof.
  intros Hij. repeat split; apply precedes_Run; intros s _ H Hpc; simpl in Hpc;
    (apply (main_elem_of b); [done|]); unfold main_history; rewrite Hpc;
    unfold upto_loop; rewrite ?elem_of_app, !elem_of_loop_part.
  - right. left. by left.
  - right. right. exists i. split; [done | by left].
  - right. right. exists i. split; [done | by right].
  - left. right. right. exists i. split; [done | by right].
Qed.

Lemma runners_taken_in_order_witness :
  precedes (EvSpawn (GStart 0)) (EvSpawn (GStart 1))
    (trace (Run two_runners verbose both_fail)).
Proof. apply (runners_taken_in_order two_runners verbose both_fail 0 1). lia. Defined.

(** When [Run] returns after line 41, what its own goroutine has done is, in
    this order: the call of the pre-start hook and its return of nil (if
    there is a hook), the spawn of the task of [gs.Wait], for each runner in
    the order of [b.runners] the registration of its callback and the spawn
    of its start task, the barrier, the spawn of the post-start task, and
    the return. *)
Theorem Run_own_statements b logger sched res :
  result (Run b logger sched) = Some res ->
  EvSpawn GWait ∈ trace (Run b logger sched) ->
  proj GMain (trace (Run b logger sched)) =
  hook_part b ++ [EvSpawn GWait] ++ loop_part (length (runners b)) ++
  [EvBarrier; EvSpawn GOnRun; EvReturn res].
Proof.
  intros Hres Hin.
  pose proof (Hist_Run b logger sched) as H.
  set (s := Run b logger sched) in *. clearbody s.
  unfold result in Hres. destruct (pc s) eqn:Hpc; simplify_eq.
  pose proof Hin as Hm. apply (elem_of_proj _ GMain) in Hm; [|done].
  rewrite (h_main _ _ H) in Hm |- *. unfold main_history in *. rewrite Hpc in *.
  destruct (wait_task s).
  - unfold upto_loop. by rewrite <- !app_assoc.
  - destruct res; set_solver.
Qed.

Lemma Run_own_statements_witness :
  proj GMain (trace (Run with_hooks verbose onrun_cancelled)) =
  hook_part with_hooks ++ [EvSpawn GWait] ++ loop_part (length (runners with_hooks)) ++
  [EvBarrier; EvSpawn GOnRun; EvReturn None].
Proof.
  apply (Run_own_statements with_hooks verbose onrun_cancelled None).
  - vm_compute. reflexivity.
  - apply list_elem_of_In. vm_compute. tauto.
Defined.

(** ** Termination, and the finality of the result *)

(** With a controller, [Run] is never stuck for good: as long as it has not
    returned, [Run] or one of its tasks can take a step that brings the
    return nearer, and from any point [Run] returns within at most
    [remaining] more steps; from the start that is [18 * n + 54] steps for
    [n] runners. *)
Theorem Run_never_stuck b logger sched :
  is_Some (gs b) ->
  (result (Run b logger sched) = None ->
   exists a, remaining b (Run b logger (sched ++ [a])) < remaining b (Run b logger sched)) /\
  (exists sched', length sched' <= remaining b (Run b logger sched) /\
                  is_Some (result (Run b logger (sched ++ sched')))) /\
  remaining b (Run b logger []) = 18 * length (runners b) + 54.
Proof.
  intros Hgs. split; [by apply progress|]. split; [|unfold remaining; simpl; lia].
  remember (remaining b (Run b logger sched)) as n eqn:Hn.
  revert sched Hn. induction (lt_wf n) as [n _ IH]. intros sched ->.
  destruct (result (Run b logger sched)) as [res|] eqn:Hres.
  - exists []. split; [simpl; lia|]. rewrite app_nil_r, Hres. by eexists.
  - destruct (progress b logger sched Hgs Hres) as [a Ha].
    destruct (IH _ Ha (sched ++ [a]) eq_refl) as (sched' & Hlen & Hs).
    exists (a :: sched'). split; [simpl; lia|]. by rewrite <- app_assoc in Hs.
Qed.

Lemma Run_never_stuck_witness :
  exists sched', length sched' <= remaining two_runners (Run two_runners verbose (main_steps 9)) /\
                 is_Some (result (Run two_runners verbose (main_steps 9 ++ sched'))).
Proof.
  apply (Run_never_stuck two_runners verbose (main_steps 9)). by eexists.
Defined.




(** ** The calls that leave the package *)

Lemma shape_bounds b s :
  Inv b s ->
  length (start_tasks s) <= length (runners b) /\
  forall i, i ∈ callbacks s -> i < length (runners b).
Proof.
  intros [Hs _ _ _]. unfold shape, pristine, looped in Hs.
  destruct (pc s); destruct_and?;
    try (destruct Hs as [Hs|Hs]; destruct_and?);
    repeat match goal with
           | H : start_tasks s = [] |- _ => rewrite H
           | H : callbacks s = _ |- _ => rewrite H
           end;
    (split; [simpl; lia | intros j Hj; try (by apply not_elem_of_nil in Hj);
                          apply elem_of_seq in Hj; lia]).
Qed.






(** Every call that leaves the package is made by the goroutine it belongs
    to, on something the orchestrator holds: the pre-start hook by [Run]
    itself, [gs.Wait] by its task, [Run] of runner [i] by start task [i],
    the post-start hook by its task, and [Stop] of runner [i] only inside an
    invocation, by the controller, of the callback registered for runner
    [i]. *)
Theorem calls_leaving_the_package b logger sched g c :
  EvCall g c ∈ trace (Run b logger sched) ->
  match c with
  | CBeforeRun => g = GMain /\ is_Some (beforeRun b)
  | CWait => g = GWait
  | CRun i => g = GStart i /\ i < length (runners b)
  | COnRun => g = GOnRun /\ is_Some (onRun b)
  | CStop i => exists k reason, g = GCallback k /\ i < length (runners b) /\
                                EvInvoke k i reason ∈ trace (Run b logger sched)
  end.
Proof.
  pose proof (Inv_Run b logger sched) as HI.
  pose proof (Hist_Run b logger sched) as H.
  set (s := Run b logger sched) in *. clearbody s.
  destruct (shape_bounds b s HI) as [Hlen Hcb].
  intros Hin. pose proof Hin as Hp. apply (elem_of_proj _ g) in Hp; [|done].
  destruct g.
  - rewrite (h_main _ _ H) in Hp. unfold main_history in Hp.
    assert (forall n, EvCall GMain c ∈ upto_loop b n ->
              c = CBeforeRun /\ is_Some (beforeRun b)) as Hup.
    { intros n Hn. unfold upto_loop in Hn. rewrite !elem_of_app in Hn.
      destruct Hn as [Hn|[Hn|Hn]].
      - apply elem_of_hook_part in Hn as [? [?|?]]; by simplify_eq.
      - set_solver.
      - apply elem_of_loop_part in Hn as (? & _ & [?|?]); done. }
    assert (c = CBeforeRun /\ is_Some (beforeRun b)) as [-> ?]; [|done].
    destruct (pc s) eqn:Hpc;
      try (by apply not_elem_of_nil in Hp);
      try (by apply Hup in Hp);
      try (by apply elem_of_app in Hp as [Hp|Hp]; [apply Hup in Hp | set_solver]).
    + apply list_elem_of_singleton in Hp. simplify_eq.
      split; [done | by apply (h_inbefore _ _ H)].
    + apply elem_of_hook_part in Hp as [? [?|?]]; by simplify_eq.
    + destruct (wait_task s) eqn:Hw.
      * by apply elem_of_app in Hp as [Hp|Hp]; [apply Hup in Hp | set_solver].
      * destruct res as [e|]; [|set_solver].
        assert (c = CBeforeRun) as -> by set_solver.
        split; [done | by apply (h_failed _ _ H e)].
  - rewrite (h_wait _ _ H) in Hp.
    destruct (wait_task s) as [[]|]; simpl in Hp; set_solver.
  - rewrite (h_start _ _ H) in Hp.
    destruct (start_tasks s !! i) as [p|] eqn:Hi; [|by apply not_elem_of_nil in Hp].
    apply lookup_lt_Some in Hi.
    assert (c = CRun i) as ->; [|split; [done | lia]].
    destruct p; simpl in Hp; set_solver.
  - rewrite (h_onrun _ _ H) in Hp.
    destruct (onrun_task s) as [p|] eqn:Ho; [|by apply not_elem_of_nil in Hp].
    pose proof (h_onrun_err _ _ H p Ho) as Hw. unfold onrun_wrapped in Hw.
    assert (c = COnRun /\ is_Some (onRun b)) as [-> ?]; [|done].
    destruct p; simpl in Hp, Hw;
      try (by apply not_elem_of_nil in Hp);
      try (split; [set_solver | done]).
    destruct (onRun b); simpl in Hp; [split; [set_solver | by eexists] | set_solver].
  - rewrite (h_callback _ _ H) in Hp.
    destruct (invocations s !! k) as [[[i reason] p]|] eqn:Hk;
      [|by apply not_elem_of_nil in Hp].
    assert (i ∈ callbacks s) as Hreg.
    { by apply (Forall_lookup_1 _ _ _ _ (inv_invocations _ _ HI) Hk). }
    assert (EvInvoke k i reason ∈ trace s) as Hinv.
    { apply (proj_elem_of _ (GCallback k)). rewrite (h_callback _ _ H), Hk. by left. }
    assert (c = CStop i) as ->.
    { destruct p; simpl in Hp; set_solver. }
    exists k, reason. split; [done|]. split; [by apply Hcb | done].
Qed.

Lemma calls_leaving_the_package_witness :
  EvCall (GCallback 0) (CStop 0) ∈ trace (Run one_runner verbose stop_fails) /\
  exists k reason, GCallback 0 = GCallback k /\ 0 < length (runners one_runner) /\
                   EvInvoke k 0 reason ∈ trace (Run one_runner verbose stop_fails).
Proof.
  assert (EvCall (GCallback 0) (CStop 0) ∈ trace (Run one_runner verbose stop_fails))
    as Hin.
  { apply list_elem_of_In. vm_compute. tauto. }
  split; [exact Hin|].
  exact (calls_leaving_the_package one_runner verbose stop_fails
           (GCallback 0) (CStop 0) Hin).
Defined.


(** ** The log records *)

Lemma logs_app t1 t2 : logs (t1 ++ t2) = logs t1 ++ logs t2.
Proof.
  induction t1 as [|e t1 IH]; [done|]. destruct e; simpl; by rewrite ?IH.
Qed.

Lemma step_records b logger a s lvl msg :
  (lvl, msg) ∈ logs (trace (step b logger a s)) ->
  (lvl, msg) ∈ logs (trace s) \/ record_of b logger lvl msg.
Proof.
  unfold step, step_main, return_main, step_wait, return_wait, step_start,
    return_start, step_onrun, return_onrun, invoke, step_callback,
    return_callback, log_info, Log, eg_done.
  repeat case_match; simpl; rewrite ?logs_app; simpl; rewrite ?app_nil_r;
    intros Hin; try (by left);
    apply elem_of_app in Hin as [Hin|Hin]; try (by left);
    apply list_elem_of_singleton in Hin; simplify_eq; right; simpl;
    (split; [done|]); eauto 10 using list_elem_of_lookup_2.
Qed.

Lemma Run_records b logger sched lvl msg :
  (lvl, msg) ∈ logs (trace (Run b logger sched)) -> record_of b logger lvl msg.
Proof.
  induction sched as [|a sched IH] using rev_ind.
  - intros Hin. by apply not_elem_of_nil in Hin.
  - rewrite Run_snoc. intros [Hin|Hin]%step_records; [by apply IH | done].
Qed.

(** Every record that [Run] and the closures it creates (the start tasks
    and the shutdown callbacks) write is one of five: the error
    "no runners, abort." (only when there are no runners and the logger is
    enabled for the error level), or, only when the logger is enabled for
    information records, "bootstrap started.", or "Starting runner",
    "Stopping runner" with the cause, or "Runner stoped" with the name of
    one of the runners.  What the controller's error handler writes is the
    controller's, not [Run]'s. *)
Theorem Run_log_records b logger sched lvl msg :
  (lvl, msg) ∈ logs (trace (Run b logger sched)) -> record_of b logger lvl msg.
Proof. apply Run_records. Qed.

Lemma Run_log_records_witness :
  (InfoLevel, "bootstrap started.") ∈ logs (trace (Run one_runner verbose stop_fails)) /\
  record_of one_runner verbose InfoLevel "bootstrap started.".
Proof.
  assert ((InfoLevel, "bootstrap started.") ∈
            logs (trace (Run one_runner verbose stop_fails))) as Hin.
  { apply list_elem_of_In. vm_compute. tauto. }
  split; [exact Hin|].
  exact (Run_log_records one_runner verbose stop_fails InfoLevel "bootstrap started." Hin).
Defined.

(** With runners and a logger that is not enabled for information records,
    [Run] and the closures it creates write no record at all: every record
    of lines 29-93 but the error of the empty case is behind
    [logger.Enabled(slog.InfoLevel)]. *)
Theorem Run_quiet b logger sched :
  Enabled logger InfoLevel = false -> runners b <> [] ->
  logs (trace (Run b logger sched)) = [].
Proof.
  intros Hen Hr.
  destruct (logs (trace (Run b logger sched))) as [|[lvl msg] l] eqn:Hl; [done|].
  assert ((lvl, msg) ∈ logs (trace (Run b logger sched))) as Hin
    by (rewrite Hl; by left).
  apply Run_records in Hin. destruct lvl; simpl in Hin; try done.
  - destruct Hin as [Hin _]. congruence.
  - by destruct Hin as (_ & _ & Hin).
Qed.

Lemma Run_quiet_witness :
  Enabled silent InfoLevel = false /\ runners one_runner <> [] /\
  logs (trace (Run one_runner silent stop_fails)) = [].
Proof.
  assert (Enabled silent InfoLevel = false) as Hen by reflexivity.
  assert (runners one_runner <> []) as Hr by discriminate.
  exact (conj Hen (conj Hr (Run_quiet one_runner silent stop_fails Hen Hr))).
Defined.

(** ** The start records and the barrier *)

Lemma step_start_logged b logger a s i p rn :
  Enabled logger InfoLevel = true ->
  runners b !! i = Some rn ->
  start_tasks (step b logger a s) !! i = Some p -> p <> TLog ->
  (exists p', start_tasks s !! i = Some p' /\ p' <> TLog) \/
  EvLog InfoLevel ("Starting runner: " +:+ Name rn) ∈ trace (step b logger a s).
Proof.
  intros Hen Hrn.
  unfold step, step_main, return_main, step_wait, return_wait, step_start,
    return_start, step_onrun, return_onrun, invoke, step_callback,
    return_callback, log_info, Log, eg_done.
  rewrite ?Hen.
  repeat case_match; simpl; intros Hl Hp;
    try (by left; eauto).
  - apply lookup_app_Some in Hl as [Hl|[_ Hl]]; [by left; eauto|].
    destruct (i - length (start_tasks s)); simplify_eq/=.
  - apply list_lookup_insert_Some in Hl as [(-> & <- & Hlt)|(Hne & Hl)];
      [|by left; eauto].
    right. simplify_eq. set_solver.
  - apply list_lookup_insert_Some in Hl as [(-> & <- & Hlt)|(Hne & Hl)];
      by left; eauto.
  - apply list_lookup_insert_Some in Hl as [(-> & <- & Hlt)|(Hne & Hl)];
      by left; eauto.
  - apply list_lookup_insert_Some in Hl as [(-> & <- & Hlt)|(Hne & Hl)];
      by left; eauto.
  - apply list_lookup_insert_Some in Hl as [(-> & <- & Hlt)|(Hne & Hl)];
      by left; eauto.
  - apply list_lookup_insert_Some in Hl as [(-> & <- & Hlt)|(Hne & Hl)];
      by left; eauto.
  - apply list_lookup_insert_Some in Hl as [(-> & <- & Hlt)|(Hne & Hl)];
      by left; eauto.
Qed.

Lemma start_logged b logger sched i p rn :
  Enabled logger InfoLevel = true ->
  runners b !! i = Some rn ->
  start_tasks (Run b logger sched) !! i = Some p -> p <> TLog ->
  EvLog InfoLevel ("Starting runner: " +:+ Name rn) ∈ trace (Run b logger sched).
Proof.
  intros Hen Hrn. revert p. induction sched as [|a sched IH] using rev_ind.
  - intros p Hl. done.
  - intros p Hl Hp. rewrite Run_snoc in *.
    destruct (step_start_logged _ _ _ _ _ _ _ Hen Hrn Hl Hp) as [(p' & Hl' & Hp')|Hin];
      [|done].
    destruct (step_emits b logger a (Run b logger sched)) as (evs & -> & _).
    apply elem_of_app. left. by eapply IH.
Qed.

Lemma step_written b logger a s :
  exists evs, trace (step b logger a s) = trace s ++ evs /\ Forall (written_at b s) evs.
Proof.
  unfold step, step_main, return_main, step_wait, return_wait, step_start,
    return_start, step_onrun, return_onrun, invoke, step_callback,
    return_callback, log_info, Log, eg_done.
  repeat case_match; simpl;
    first [ exists []; split; [by rewrite app_nil_r | constructor]
          | eexists; split; [reflexivity | repeat (match goal with |- Forall _ _ => constructor end); simpl; eauto 15]
          | eexists; split; [symmetry; apply app_assoc
                            | repeat (match goal with |- Forall _ _ => constructor end); simpl; eauto 15] ].
Qed.

Lemma precedes_written b logger e1 e2 :
  (forall sched,
      written_at b (Run b logger sched) e2 -> emitted_at (Run b logger sched) e2 ->
      e1 ∈ trace (Run b logger sched)) ->
  forall sched, precedes e1 e2 (trace (Run b logger sched)).
Proof.
  intros Hstep sched. induction sched as [|a sched IH] using rev_ind.
  - intros t1 t2 Heq. by destruct t1.
  - rewrite Run_snoc.
    destruct (step_written b logger a (Run b logger sched)) as (evs & Heq & Hall).
    destruct (step_emits b logger a (Run b logger sched)) as (evs' & Heq' & Hall').
    assert (evs' = evs) as -> by (eapply app_inv_head; by rewrite <- Heq, <- Heq').
    rewrite Heq. apply precedes_app; [done|]. intros Hin.
    apply Hstep; by eapply (proj1 (Forall_forall _ _)).
Qed.

Lemma step_started_logged b logger a s :
  Enabled logger InfoLevel = true ->
  pc (step b logger a s) = MGoOnRun ->
  pc s = MGoOnRun \/ EvLog InfoLevel "bootstrap started." ∈ trace (step b logger a s).
Proof.
  intros Hen.
  unfold step, step_main, return_main, step_wait, return_wait, step_start,
    return_start, step_onrun, return_onrun, invoke, step_callback,
    return_callback, log_info, Log, eg_done.
  rewrite ?Hen.
  repeat case_match; simpl; intros Hpc;
    first [by left | congruence | right; set_solver].
Qed.

Lemma started_logged b logger sched :
  Enabled logger InfoLevel = true ->
  pc (Run b logger sched) = MGoOnRun ->
  EvLog InfoLevel "bootstrap started." ∈ trace (Run b logger sched).
Proof.
  intros Hen. induction sched as [|a sched IH] using rev_ind; [done|].
  rewrite Run_snoc. intros [Hpc|Hin]%step_started_logged; [|done..].
  destruct (step_emits b logger a (Run b logger sched)) as (evs & -> & _).
  apply elem_of_app. left. by apply IH.
Qed.

(** With a logger enabled for information records: the record "Starting
    runner" of a runner is written before its start task signals the
    barrier, so before "bootstrap started."; that record is written after
    the barrier and before the post-start task is spawned. *)
Theorem started_record_order b logger sched :
  Enabled logger InfoLevel = true ->
  (forall i rn, runners b !! i = Some rn ->
     precedes (EvLog InfoLevel ("Starting runner: " +:+ Name rn)) (EvSignal i)
       (trace (Run b logger sched)) /\
     precedes (EvLog InfoLevel ("Starting runner: " +:+ Name rn))
       (EvLog InfoLevel "bootstrap started.") (trace (Run b logger sched))) /\
  precedes EvBarrier (EvLog InfoLevel "bootstrap started.")
    (trace (Run b logger sched)) /\
  precedes (EvLog InfoLevel "bootstrap started.") (EvSpawn GOnRun)
    (trace (Run b logger sched)).
Proof.
  intros Hen.
  assert (forall sched',
            written_at b (Run b logger sched') (EvLog InfoLevel "bootstrap started.") ->
            pc (Run b logger sched') = MStarted) as Hat.
  { intros sched' [[? _]|[[_ ?]|[(i & rn & _ & _ & Hm)|
                     [(k & i & reason & rn & _ & _ & Hm)|(k & i & reason & rn & _ & _ & Hm)]]]];
      done. }
  split; [intros i rn Hrn; split | split].
  - apply precedes_written. intros sched' Hw _. simpl in Hw.
    by eapply start_logged.
  - apply precedes_written. intros sched' Hw _. apply Hat in Hw.
    pose proof (Inv_Run b logger sched') as [Hs [Hc _] _ _].
    unfold shape in Hs. rewrite Hw in Hs, Hc.
    destruct Hs as ((_ & Hlen & _) & _ & Hz).
    destruct (lookup_lt_is_Some_2 (start_tasks (Run b logger sched')) i) as [p Hp].
    { rewrite Hlen. by eapply lookup_lt_Some. }
    eapply start_logged; [done..|].
    assert (unsignalled p = false) as Hu.
    { eapply count_zero_lookup; [|done]. lia. }
    by intros ->.
  - apply precedes_written. intros sched' Hw _. apply Hat in Hw.
    apply (main_elem_of b); [apply Hist_Run|].
    unfold main_history. rewrite Hw. set_solver.
  - apply precedes_written. intros sched' _ Hpc. simpl in Hpc.
    by apply started_logged.
Qed.

Lemma started_record_order_witness :
  Enabled verbose InfoLevel = true /\
  precedes (EvLog InfoLevel "bootstrap started.") (EvSpawn GOnRun)
    (trace (Run one_runner verbose stop_fails)).
Proof.
  assert (Enabled verbose InfoLevel = true) as Hen by reflexivity.
  split; [exact Hen|].
  exact (proj2 (proj2 (started_record_order one_runner verbose stop_fails Hen))).
Defined.

(** ** The records of a shutdown callback *)

Lemma before_written b logger e2 (P : list event -> Prop) :
  (forall t evs, P t -> P (t ++ evs)) ->
  (forall sched, written_at b (Run b logger sched) e2 -> P (trace (Run b logger sched))) ->
  forall sched t1 t2, trace (Run b logger sched) = t1 ++ e2 :: t2 -> P t1.
Proof.
  intros Hmono Hat sched. induction sched as [|a sched IH] using rev_ind.
  - intros t1 t2 Heq. by destruct t1.
  - intros t1 t2. rewrite Run_snoc.
    destruct (step_written b logger a (Run b logger sched)) as (evs & -> & Hall).
    assert (e2 ∈ evs -> P (trace (Run b logger sched))) as Hnew.
    { intros Hin. apply Hat. by apply (proj1 (Forall_forall _ _) Hall). }
    intros Heq. apply app_eq_app in Heq as [l [[Ht Heq]|[-> Heq]]].
    + destruct l as [|x l]; simpl in Heq.
      * rewrite app_nil_r in Ht. rewrite <- Ht. apply Hnew. rewrite <- Heq. by left.
      * simplify_eq. by eapply IH.
    + apply Hmono, Hnew. rewrite Heq. apply elem_of_app. right. by left.
Qed.

Lemma step_stop_logged b logger a s k i reason p rn :
  Enabled logger InfoLevel = true ->
  runners b !! i = Some rn ->
  invocations (step b logger a s) !! k = Some (i, reason, p) -> p <> TLog ->
  (exists p', invocations s !! k = Some (i, reason, p') /\ p' <> TLog) \/
  EvLog InfoLevel ("Stopping runner: " +:+ Name rn +:+ ", cause: " +:+ reason)
    ∈ trace (step b logger a s).
Proof.
  intros Hen Hrn.
  unfold step, step_main, return_main, step_wait, return_wait, step_start,
    return_start, step_onrun, return_onrun, invoke, step_callback,
    return_callback, log_info, Log, eg_done.
  rewrite ?Hen.
  repeat case_match; simpl; intros Hl Hp;
    try (by left; eauto);
    try (apply list_lookup_insert_Some in Hl as [(-> & Heq & Hlt)|(Hne & Hl)];
         [simplify_eq; first [by left; eauto | right; set_solver] | by left; eauto]).
  apply lookup_app_Some in Hl as [Hl|[_ Hl]]; [by left; eauto|].
  destruct (k - length (invocations s)); simplify_eq/=.
Qed.

Lemma stop_logged b logger sched k i reason p rn :
  Enabled logger InfoLevel = true ->
  runners b !! i = Some rn ->
  invocations (Run b logger sched) !! k = Some (i, reason, p) -> p <> TLog ->
  EvLog InfoLevel ("Stopping runner: " +:+ Name rn +:+ ", cause: " +:+ reason)
    ∈ trace (Run b logger sched).
Proof.
  intros Hen Hrn. revert p. induction sched as [|a sched IH] using rev_ind.
  - intros p Hl. done.
  - intros p Hl Hp. rewrite Run_snoc in *.
    destruct (step_stop_logged _ _ _ _ _ _ _ _ _ Hen Hrn Hl Hp) as [(p' & Hl' & Hp')|Hin];
      [|done].
    destruct (step_emits b logger a (Run b logger sched)) as (evs & -> & _).
    apply elem_of_app. left. by eapply IH.
Qed.

(** With a logger enabled for information records: when the callback of
    runner [i] calls [r.Stop], the controller has invoked it with some
    reason, and the record "Stopping runner" with the name of the runner
    and that reason has been written. *)
Theorem stop_record_first b logger sched k i t1 t2 :
  Enabled logger InfoLevel = true ->
  trace (Run b logger sched) = t1 ++ EvCall (GCallback k) (CStop i) :: t2 ->
  exists reason rn,
    runners b !! i = Some rn /\ EvInvoke k i reason ∈ t1 /\
    EvLog InfoLevel ("Stopping runner: " +:+ Name rn +:+ ", cause: " +:+ reason) ∈ t1.
Proof.
  intros Hen.
  apply (before_written b logger _
           (fun t => exists reason rn,
                runners b !! i = Some rn /\ EvInvoke k i reason ∈ t /\
                EvLog InfoLevel ("Stopping runner: " +:+ Name rn +:+ ", cause: " +:+ reason) ∈ t)).
  - intros t evs (reason & rn & ? & ? & ?). exists reason, rn.
    rewrite !elem_of_app. auto.
  - intros sched' [reason Hk].
    pose proof (Inv_Run b logger sched') as HI.
    pose proof (Hist_Run b logger sched') as H.
    destruct (shape_bounds b _ HI) as [_ Hcb].
    assert (i ∈ callbacks (Run b logger sched')) as Hreg.
    { by apply (Forall_lookup_1 _ _ _ _ (inv_invocations _ _ HI) Hk). }
    destruct (lookup_lt_is_Some_2 (runners b) i (Hcb i Hreg)) as [rn Hrn].
    exists reason, rn. split; [done|]. split.
    + apply (proj_elem_of _ (GCallback k)). rewrite (h_callback _ _ H), Hk. by left.
    + by eapply stop_logged.
Qed.

(** The record "Runner stoped" is written only after [Stop] of a runner of
    that name has returned nil in an invocation of its callback. *)
Theorem stopped_record_after_Stop b logger sched lvl name t1 t2 :
  trace (Run b logger sched) = t1 ++ EvLog lvl ("Runner stoped: " +:+ name) :: t2 ->
  exists k i rn,
    runners b !! i = Some rn /\ Name rn = name /\
    EvRet (GCallback k) (CStop i) None ∈ t1.
Proof.
  apply (before_written b logger _
           (fun t => exists k i rn,
                runners b !! i = Some rn /\ Name rn = name /\
                EvRet (GCallback k) (CStop i) None ∈ t)).
  - intros t evs (k & i & rn & ? & ? & ?). exists k, i, rn.
    rewrite !elem_of_app. auto.
  - intros sched' [[? _]|[[? _]|[(i & rn & _ & _ & Hm)|
                     [(k & i & reason & rn & _ & _ & Hm)|(k & i & reason & rn & Hk & Hrn & Hm)]]]];
      try done.
    pose proof (Hist_Run b logger sched') as H.
    exists k, i, rn. split; [done|]. split.
    + symmetry. by apply (inj (String.append "Runner stoped: ")).
    + apply (proj_elem_of _ (GCallback k)). rewrite (h_callback _ _ H), Hk.
      cbn [history_of callback_history call_history fst snd]. set_solver.
Qed.

Lemma stop_record_first_witness :
  Enabled verbose InfoLevel = true /\
  trace (Run one_runner verbose stop_succeeds) =
    take 14 (trace (Run one_runner verbose stop_succeeds)) ++
    EvCall (GCallback 0) (CStop 0) ::
    drop 15 (trace (Run one_runner verbose stop_succeeds)) /\
  exists reason rn,
    runners one_runner !! 0 = Some rn /\
    EvInvoke 0 0 reason ∈ take 14 (trace (Run one_runner verbose stop_succeeds)) /\
    EvLog InfoLevel ("Stopping runner: " +:+ Name rn +:+ ", cause: " +:+ reason)
      ∈ take 14 (trace (Run one_runner verbose stop_succeeds)).
Proof.
  assert (Enabled verbose InfoLevel = true) as Hen by reflexivity.
  assert (trace (Run one_runner verbose stop_succeeds) =
            take 14 (trace (Run one_runner verbose stop_succeeds)) ++
            EvCall (GCallback 0) (CStop 0) ::
            drop 15 (trace (Run one_runner verbose stop_succeeds))) as Heq.
  { vm_compute. reflexivity. }
  exact (conj Hen (conj Heq
           (stop_record_first one_runner verbose stop_succeeds 0 0 _ _ Hen Heq))).
Defined.

Lemma stopped_record_after_Stop_witness :
  trace (Run one_runner verbose stop_succeeds) =
    take 16 (trace (Run one_runner verbose stop_succeeds)) ++
    EvLog InfoLevel ("Runner stoped: " +:+ "db") ::
    drop 17 (trace (Run one_runner verbose stop_succeeds)) /\
  exists k i rn,
    runners one_runner !! i = Some rn /\ Name rn = "db" /\
    EvRet (GCallback k) (CStop i) None
      ∈ take 16 (trace (Run one_runner verbose stop_succeeds)).
Proof.
  assert (trace (Run one_runner verbose stop_succeeds) =
            take 16 (trace (Run one_runner verbose stop_succeeds)) ++
            EvLog InfoLevel ("Runner stoped: " +:+ "db") ::
            drop 17 (trace (Run one_runner verbose stop_succeeds))) as Heq.
  { vm_compute. reflexivity. }
  exact (conj Heq
           (stopped_record_after_Stop one_runner verbose stop_succeeds InfoLevel "db" _ _ Heq)).
Defined.

(** ** [New], then [Run] *)

(** An orchestrator built by [New] from the configuration functions of
    options.go never makes [Run] call a method of a nil controller:
    [gs.Wait] and [gs.AddShutdownCallback] always have a receiver, whatever
    [WithShutdown] was given. *)
Theorem Run_of_New_controller_never_nil opts logger sched :
  Forall configuration opts ->
  crashed (Run (New opts) logger sched) = false.
Proof.
  intros Hall. apply never_crashed.
  apply fold_configuration_keeps_gs; [done | by eexists].
Qed.

Lemma Run_of_New_controller_never_nil_witness :
  Forall configuration [WithShutdown None; WithRunners [mkRunner "db"]] /\
  crashed (Run (New [WithShutdown None; WithRunners [mkRunner "db"]]) verbose stop_fails)
    = false.
Proof.
  assert (Forall configuration [WithShutdown None; WithRunners [mkRunner "db"]]) as Hall
    by (repeat constructor).
  exact (conj Hall (Run_of_New_controller_never_nil _ verbose stop_fails Hall)).
Defined.
